(** * dc-fetch: a shallow embedding of [src/dc-fetch.js] and [src/react-hoc.jsx]

    The dispatcher class [DcFetch] wraps an HTTP client (axios) and a
    form encoder (qs); the higher-order component of [react-hoc.jsx]
    records the handles of the requests a component issues and cancels
    them when the component is unmounted.

    JavaScript objects are finite maps from the names of their own
    properties to values, looked up with the names every object
    inherits in mind; the mutable state of the dispatcher and of the
    HTTP client is threaded explicitly, with the headers object the
    instances of the client may share kept once; a [throw] is a result
    of its own.  The HTTP client and the encoder are outside the
    repository: the client is represented by the defaults of its
    instances, by the requests it was handed and by the answers it
    delivers later, the encoder by a function the development is
    parametric in. *)

From stdpp Require Import gmap strings list.
From Stdlib Require Import ZArith.

Set Warnings "-register-all".
Open Scope string_scope.
Open Scope list_scope.

(** ** JavaScript values *)

(** The values the program handles: numbers are the integers, functions
    are kept out (the hooks are fields of the dispatcher instead). *)
Inductive value : Type :=
| VUndef
| VNull
| VBool (b : bool)
| VNum (n : Z)
| VStr (s : string)
| VArr (elems : list value)
| VObj (fields : gmap string value)
| VToken (n : nat).               (* a CancelToken made by the caller *)

Abbreviation obj := (gmap string value).

(** [ToBoolean]: what [if (v)], [v || w] and [v && w] test. *)
Definition truthy (v : value) : bool :=
  match v with
  | VUndef | VNull => false
  | VBool b => b
  | VNum n => negb (n =? 0)%Z
  | VStr s => negb (String.eqb s "")
  | VArr _ | VObj _ | VToken _ => true
  end.

(** [a || b] *)
Definition js_or (a b : value) : value := if truthy a then a else b.

(** [a && b] *)
Definition js_and (a b : value) : value := if truthy a then b else a.

(** [v.k] for a [v] that is neither [undefined] nor [null].  The program
    only reads the names [message], [canceled], [data], [headers] and
    [Content-Type], none of which a primitive, an array or a token
    carries. *)
Definition get_prop (v : value) (k : string) : value :=
  match v with
  | VObj m => default VUndef (m !! k)
  | _ => VUndef
  end.

(** The names every object inherits from [Object.prototype].  On a
    plain object without a property [k] of its own, [o[k]] is
    [undefined] unless [k] is one of them: then it is the inherited
    member, a function (for [__proto__] the prototype itself), which is
    truthy and has none of the properties the program reads or calls
    ([cancel], [Content-Type]). *)
Definition Object_prototype : list string :=
  ["constructor"; "hasOwnProperty"; "isPrototypeOf"; "propertyIsEnumerable";
   "toLocaleString"; "toString"; "valueOf"; "__proto__";
   "__defineGetter__"; "__defineSetter__";
   "__lookupGetter__"; "__lookupSetter__"].

(** The outcome of a computation that may [throw]. *)
Inductive result (A : Type) : Type :=
| Ok (a : A)
| Throw (e : value).
Arguments Ok {A} a.
Arguments Throw {A} e.

Definition TypeError (msg : string) : value :=
  VObj {[ "name" := VStr "TypeError"; "message" := VStr msg ]}.

(** [v.k] for any [v]: reading a property of [undefined] or [null]
    throws. *)
Definition read_prop (v : value) (k : string) : result value :=
  match v with
  | VUndef | VNull => Throw (TypeError (String.append "Cannot read property " k))
  | _ => Ok (get_prop v k)
  end.

(** [v.indexOf(needle) > -1] for a string [needle]: substring search on
    a string, strict-equality search on an array, a [TypeError] on
    anything else. *)
Definition indexOf_found (v : value) (needle : string) : result bool :=
  match v with
  | VStr s => Ok (bool_decide (is_Some (String.index 0 needle s)))
  | VArr l =>
      Ok (existsb (λ x, match x with
                        | VStr s => String.eqb s needle
                        | _ => false
                        end) l)
  | _ => Throw (TypeError "indexOf is not a function")
  end.

(** ** The HTTP client *)

(** A [defaults] object as it is read, restricted to the fields the
    dispatcher writes; [headers] maps a method name (or [common]) to
    the headers sent by default with that method. *)
Record axios_defaults : Type := {
  timeout : value;
  headers : gmap string obj;
  baseURL : value;
  withCredentials : value;
}.

(** The [defaults] object of a created instance as it is stored: the
    fields of its own, and its [headers] field, which either holds a
    headers object of the instance's own or is the headers object of
    the library's defaults itself ([None]). *)
Record instance_defaults : Type := {
  own_timeout : value;
  own_headers : option (gmap string obj);
  own_baseURL : value;
  own_withCredentials : value;
}.

(** Reading the [defaults] of an instance, given the library's. *)
Definition read_defaults (library : axios_defaults)
    (c : instance_defaults) : axios_defaults :=
  {| timeout := own_timeout c;
     headers := default (headers library) (own_headers c);
     baseURL := own_baseURL c;
     withCredentials := own_withCredentials c |}.

(** A field of the configuration handed to an instance: either a value
    that came from the caller or the dispatcher, or the cancel token the
    dispatcher creates for the call, which the caller never holds. *)
Inductive cfgval : Type :=
| Plain (v : value)
| OwnToken (h : nat).

Abbreviation config := (gmap string cfgval).

(** One call [instance(config)], with what the callbacks attached to it
    have captured. *)
Record request : Type := {
  rq_instance : nat;
  rq_config : config;
  rq_successTip : value;
  rq_errorTip : value;
}.

(** The state of a [fetchPromise]. *)
Inductive pstate : Type :=
| Pending
| Resolved (v : value)
| Rejected (e : value).

(** What can be observed from outside, in the order it happens. *)
Inductive event : Type :=
| EvRequest (h : nat)                      (* instance(config) is called *)
| EvCancel (h : nat)                       (* fetchPromise.cancel() is called *)
| EvSuccessTip (response tip : value)      (* onShowSuccessTip(response, tip) *)
| EvErrorTip (err tip : value).            (* onShowErrorTip(err, tip) *)

(** The mutable state: the fields that change of the one [DcFetch]
    object that is followed, and the state of the client library.  A
    handle is the index of its request in [requests]; an instance is
    the index of its [defaults] object in [created].  [singleGets]
    holds the own properties of the object used as a map from urls to
    handles.  [create_shares_headers] tells the releases of the library
    apart: up to 0.18 [axios.create()] copies the library defaults one
    level deep, so that the new instance's [headers] is the library's
    headers object itself; later releases copy the headers too. *)
Record world : Type := {
  axios_global : axios_defaults;       (* axios.defaults *)
  create_shares_headers : bool;
  created : list instance_defaults;    (* the defaults of each created instance *)
  singleGets : gmap string nat;        (* this.singleGets *)
  requests : list request;
  promises : gmap nat pstate;          (* the settled fetchPromises *)
  answered : gset nat;                 (* requests the client has answered *)
  own_tokens : gmap nat value;         (* reason of each cancelled own token *)
  caller_tokens : gmap nat value;      (* reason of each cancelled caller token *)
  trace : list event;
}.

(** [instance.defaults] of each created instance, as read. *)
Definition instances (w : world) : list axios_defaults :=
  read_defaults (axios_global w) <$> created w.

Definition set_axios_global (f : axios_defaults → axios_defaults)
    (w : world) : world :=
  {| axios_global := f (axios_global w);
     create_shares_headers := create_shares_headers w;
     created := created w;
     singleGets := singleGets w; requests := requests w;
     promises := promises w; answered := answered w;
     own_tokens := own_tokens w; caller_tokens := caller_tokens w;
     trace := trace w |}.

Definition set_created
    (f : list instance_defaults → list instance_defaults)
    (w : world) : world :=
  {| axios_global := axios_global w;
     create_shares_headers := create_shares_headers w;
     created := f (created w);
     singleGets := singleGets w; requests := requests w;
     promises := promises w; answered := answered w;
     own_tokens := own_tokens w; caller_tokens := caller_tokens w;
     trace := trace w |}.

Definition set_singleGets (f : gmap string nat → gmap string nat)
    (w : world) : world :=
  {| axios_global := axios_global w;
     create_shares_headers := create_shares_headers w;
     created := created w;
     singleGets := f (singleGets w); requests := requests w;
     promises := promises w; answered := answered w;
     own_tokens := own_tokens w; caller_tokens := caller_tokens w;
     trace := trace w |}.

Definition set_requests (f : list request → list request)
    (w : world) : world :=
  {| axios_global := axios_global w;
     create_shares_headers := create_shares_headers w;
     created := created w;
     singleGets := singleGets w; requests := f (requests w);
     promises := promises w; answered := answered w;
     own_tokens := own_tokens w; caller_tokens := caller_tokens w;
     trace := trace w |}.

Definition set_promises (f : gmap nat pstate → gmap nat pstate)
    (w : world) : world :=
  {| axios_global := axios_global w;
     create_shares_headers := create_shares_headers w;
     created := created w;
     singleGets := singleGets w; requests := requests w;
     promises := f (promises w); answered := answered w;
     own_tokens := own_tokens w; caller_tokens := caller_tokens w;
     trace := trace w |}.

Definition set_answered (f : gset nat → gset nat) (w : world) : world :=
  {| axios_global := axios_global w;
     create_shares_headers := create_shares_headers w;
     created := created w;
     singleGets := singleGets w; requests := requests w;
     promises := promises w; answered := f (answered w);
     own_tokens := own_tokens w; caller_tokens := caller_tokens w;
     trace := trace w |}.

Definition set_own_tokens (f : gmap nat value → gmap nat value)
    (w : world) : world :=
  {| axios_global := axios_global w;
     create_shares_headers := create_shares_headers w;
     created := created w;
     singleGets := singleGets w; requests := requests w;
     promises := promises w; answered := answered w;
     own_tokens := f (own_tokens w); caller_tokens := caller_tokens w;
     trace := trace w |}.

Definition set_caller_tokens (f : gmap nat value → gmap nat value)
    (w : world) : world :=
  {| axios_global := axios_global w;
     create_shares_headers := create_shares_headers w;
     created := created w;
     singleGets := singleGets w; requests := requests w;
     promises := promises w; answered := answered w;
     own_tokens := own_tokens w; caller_tokens := f (caller_tokens w);
     trace := trace w |}.

Definition emit (e : event) (w : world) : world :=
  {| axios_global := axios_global w;
     create_shares_headers := create_shares_headers w;
     created := created w;
     singleGets := singleGets w; requests := requests w;
     promises := promises w; answered := answered w;
     own_tokens := own_tokens w; caller_tokens := caller_tokens w;
     trace := trace w ++ [e] |}.

(** *** A state monad in which a [throw] keeps the state reached *)

Definition M (A : Type) : Type := world → result A * world.

Definition ret {A} (a : A) : M A := λ w, (Ok a, w).

Definition throw {A} (e : value) : M A := λ w, (Throw e, w).

Definition bind {A B} (m : M A) (k : A → M B) : M B :=
  λ w, match m w with
       | (Ok a, w') => k a w'
       | (Throw e, w') => (Throw e, w')
       end.

Definition modify (f : world → world) : M unit := λ w, (Ok tt, f w).

Definition lift {A} (r : result A) : M A := λ w, (r, w).

Notation "x <- m ;; k" := (bind m (λ x, k))
  (at level 100, m at next level, right associativity, only parsing).
Notation "m ;; k" := (bind m (λ _, k))
  (at level 100, right associativity, only parsing).

(** [axios.create()]: the [defaults] of the new instance is a new
    object with the fields of the library's defaults; its [headers] is
    the library's headers object itself where the release copies one
    level deep, and a copy of it otherwise. *)
Definition axios_create : M nat :=
  λ w, let library := axios_global w in
       (Ok (length (created w)),
        set_created
          (λ l, l ++ [{| own_timeout := timeout library;
                         own_headers :=
                           if create_shares_headers w then None
                           else Some (headers library);
                         own_baseURL := baseURL library;
                         own_withCredentials := withCredentials library |}])
          w).

(** Reading [instance.defaults]. *)
Definition get_defaults (i : nat) : M axios_defaults :=
  λ w, match instances w !! i with
       | Some d => (Ok d, w)
       | None => (Throw (TypeError "Cannot read property defaults"), w)
       end.

(** Writing [instance.defaults] in place so that it reads as [d]: the
    fields of its own are assigned, and the entries of [headers] are
    written into the headers object the instance has, which is the
    library's (and that of every instance sharing it) unless the
    instance has one of its own. *)
Definition write_defaults (i : nat) (d : axios_defaults) (w : world) : world :=
  match created w !! i with
  | None => w
  | Some c =>
      let w :=
        set_created
          (λ l, <[i := {| own_timeout := timeout d;
                          own_headers :=
                            match own_headers c with
                            | Some _ => Some (headers d)
                            | None => None
                            end;
                          own_baseURL := baseURL d;
                          own_withCredentials := withCredentials d |}]> l) w in
      match own_headers c with
      | Some _ => w
      | None =>
          set_axios_global
            (λ library,
               {| timeout := timeout library; headers := headers d;
                  baseURL := baseURL library;
                  withCredentials := withCredentials library |}) w
      end
  end.

(** Writing fields of [instance.defaults] in place. *)
Definition update_defaults (i : nat)
    (f : axios_defaults → axios_defaults) : M unit :=
  d <- get_defaults i ;;
  modify (write_defaults i (f d)).

Definition with_timeout (v : value) (d : axios_defaults) : axios_defaults :=
  {| timeout := v; headers := headers d;
     baseURL := baseURL d; withCredentials := withCredentials d |}.

Definition with_headers (hs : gmap string obj) (d : axios_defaults) :
    axios_defaults :=
  {| timeout := timeout d; headers := hs;
     baseURL := baseURL d; withCredentials := withCredentials d |}.

Definition with_baseURL (v : value) (d : axios_defaults) : axios_defaults :=
  {| timeout := timeout d; headers := headers d;
     baseURL := v; withCredentials := withCredentials d |}.

Definition with_withCredentials (v : value) (d : axios_defaults) :
    axios_defaults :=
  {| timeout := timeout d; headers := headers d;
     baseURL := baseURL d; withCredentials := v |}.

(** [instance.defaults.headers[m][k] = v]: throws when [headers[m]] is
    [undefined]. *)
Definition set_header (i : nat) (m k : string) (v : value) : M unit :=
  d <- get_defaults i ;;
  match headers d !! m with
  | Some hs => update_defaults i (with_headers (<[m := <[k := v]> hs]> (headers d)))
  | None => throw (TypeError (String.append "Cannot set property " k))
  end.

(** The argument a cancel function passes on is wrapped by axios in a
    [Cancel] object, with which the request is then rejected. *)
Definition Cancel (message : value) : value :=
  VObj {[ "message" := message ]}.

(** The error an in-flight request with configuration [cfg] is rejected
    with once the token it watches is cancelled, if it is. *)
Definition abort_error (w : world) (cfg : config) : option value :=
  match cfg !! "cancelToken" with
  | Some (OwnToken h) => own_tokens w !! h
  | Some (Plain (VToken n)) => caller_tokens w !! n
  | _ => None
  end.

(** The caller cancels a token of its own with [message]; a token keeps
    the first reason it is given. *)
Definition caller_cancel (n : nat) (message : value) (w : world) : world :=
  match caller_tokens w !! n with
  | Some _ => w
  | None => set_caller_tokens (insert n (Cancel message)) w
  end.

(** How the promise of a request ends. *)
Inductive outcome : Type :=
| Fulfilled (response : value)
| Failed (err : value).

(** ** [dc-fetch.js] *)

(** A notification hook either returns (its value is ignored) or
    throws. *)
Inductive hook_result : Type :=
| Returns
| Throws (e : value).

(** The fields of a [DcFetch] object the constructor sets for good;
    [instance], [mockInstance], [defaults] and [mockDefaults] are
    references into [created].  The hooks are functions of their
    arguments, and [isMock] is one that returns. *)
Record DcFetch : Type := {
  instance : nat;
  mockInstance : nat;
  defaults : nat;
  mockDefaults : nat;
  onShowSuccessTip : value → value → hook_result;
  onShowErrorTip : value → value → hook_result;
  isMock : string → value → string → obj → value;
}.

(** The object the constructor destructures; an absent field is
    [undefined]. *)
Record DcFetchOptions : Type := {
  opt_onShowSuccessTip : option (value → value → hook_result);
  opt_onShowErrorTip : option (value → value → hook_result);
  opt_isMock : option (string → value → string → obj → value);
}.

Definition no_options : DcFetchOptions :=
  {| opt_onShowSuccessTip := None; opt_onShowErrorTip := None;
     opt_isMock := None |}.

Definition setDefaultOption (instance : nat) : M unit :=
  update_defaults instance (with_timeout (VNum 10000)) ;;
  set_header instance "post" "Content-Type" (VStr "application/json") ;;
  set_header instance "put" "Content-Type" (VStr "application/json") ;;
  update_defaults instance (with_baseURL (VStr "/")) ;;
  update_defaults instance (with_withCredentials (VBool true)).

Definition constructor (o : DcFetchOptions) : M DcFetch :=
  let onShowSuccessTip := default (λ _ _, Returns) (opt_onShowSuccessTip o) in
  let onShowErrorTip := default (λ _ _, Returns) (opt_onShowErrorTip o) in
  let isMock := default (λ _ _ _ _, VBool false) (opt_isMock o) in
  modify (set_singleGets (λ _, ∅)) ;;
  instance <- axios_create ;;
  mockInstance <- axios_create ;;
  setDefaultOption instance ;;
  setDefaultOption mockInstance ;;
  ret {| instance := instance; mockInstance := mockInstance;
         defaults := instance; mockDefaults := mockInstance;
         onShowSuccessTip := onShowSuccessTip;
         onShowErrorTip := onShowErrorTip;
         isMock := isMock |}.

Definition form_urlencoded : string := "application/x-www-form-urlencoded".

(** [let {k = dflt} = o]: the default applies when [o.k] is
    [undefined]. *)
Definition destructure (o : obj) (k : string) (dflt : value) : value :=
  match o !! k with
  | None | Some VUndef => dflt
  | Some v => v
  end.

(** [headers[method]], of which [fetch] reads the Content-Type: for a
    [method] without default headers it is [undefined] and the read
    throws, unless the name is inherited: then it is a member without
    a Content-Type. *)
Definition method_headers (table : gmap string obj) (method : string) :
    result obj :=
  match table !! method with
  | Some hs => Ok hs
  | None =>
      if decide (method ∈ Object_prototype) then Ok ∅
      else Throw (TypeError "Cannot read property Content-Type")
  end.

(** The test that guards [data = stringify(data)]. *)
Definition wants_form (defaultsContentType contentType : value) :
    result bool :=
  match (if truthy defaultsContentType
         then indexOf_found defaultsContentType form_urlencoded
         else Ok false) with
  | Throw e => Throw e
  | Ok true => Ok true
  | Ok false => indexOf_found contentType form_urlencoded
  end.

(** The object literal handed to the instance, before [...options]. *)
Definition base_config (method url : string) (data params : value)
    (h : nat) : config :=
  {[ "method" := Plain (VStr method);
     "url" := Plain (VStr url);
     "data" := Plain data;
     "params" := Plain params;
     "cancelToken" := OwnToken h ]}.

(** [{method, url, data, params, cancelToken, ...options}] *)
Definition spread_config (base : config) (options : obj) : config :=
  (Plain <$> options) ∪ base.

(** [new Promise(...)] around [instance(config).then(...).catch(...)]:
    the request is recorded with what its callbacks capture, and the
    new handle is the promise. *)
Definition issue (instance : nat) (cfg : nat → config)
    (successTip errorTip : value) : M nat :=
  λ w, let h := length (requests w) in
       (Ok h,
        emit (EvRequest h)
          (set_requests
             (λ l, l ++ [{| rq_instance := instance; rq_config := cfg h;
                            rq_successTip := successTip;
                            rq_errorTip := errorTip |}]) w)).

Definition default_errorTip (method : string) : value :=
  VStr (if String.eqb method "get" then "获取数据失败！" else "操作失败！").

(** [fetchPromise.cancel()], that is [cancel({canceled: true})] with the
    cancel function of the token created for the call: a token keeps
    the first reason it is given. *)
Definition canceled_message : value := VObj {[ "canceled" := VBool true ]}.

Definition cancel (h : nat) (w : world) : world :=
  let w := emit (EvCancel h) w in
  match own_tokens w !! h with
  | Some _ => w
  | None => set_own_tokens (insert h (Cancel canceled_message)) w
  end.

Definition promise_state (w : world) (h : nat) : pstate :=
  default Pending (promises w !! h).

(** [resolve] and [reject] act on a pending promise only. *)
Definition settle (h : nat) (s : pstate) (w : world) : world :=
  match promise_state w h with
  | Pending => set_promises (insert h s) w
  | _ => w
  end.

Definition resolve (h : nat) (v : value) : world → world :=
  settle h (Resolved v).

Definition reject (h : nat) (e : value) : world → world :=
  settle h (Rejected e).

(** [err && err.message && err.message.canceled] *)
Definition isCanceled (err : value) : value :=
  js_and (js_and err (get_prop err "message"))
    (get_prop (get_prop err "message") "canceled").

(** The callbacks [fetch] attaches to the promise of request [h], run
    when the client answers it; a request is answered once. *)
Definition deliver (this : DcFetch) (h : nat) (o : outcome)
    (w : world) : world :=
  match requests w !! h with
  | None => w
  | Some rq =>
      if bool_decide (h ∈ answered w) then w
      else
        let w := set_answered (union {[h]}) w in
        match o with
        | Fulfilled response =>
            let w := emit (EvSuccessTip response (rq_successTip rq)) w in
            match onShowSuccessTip this response (rq_successTip rq) with
            | Throws error => reject h error w
            | Returns =>
                match read_prop response "data" with
                | Throw error => reject h error w
                | Ok data => resolve h data w
                end
            end
        | Failed err =>
            if truthy (isCanceled err) then w
            else
              let w := emit (EvErrorTip err (rq_errorTip rq)) w in
              match onShowErrorTip this err (rq_errorTip rq) with
              | Throws error => reject h error w
              | Returns => reject h err w
              end
        end
  end.

(** ** The state of [react-hoc.jsx] *)

(** The closure stored at [this._$dcFetch[method]]: it forwards to
    [dcFetch[method]]. *)
Inductive injected : Type :=
| Forward (method : string).

(** A prop handed to a component. *)
Inductive prop : Type :=
| PValue (v : value)
| PMethods (table : gmap string injected).

(** The fields of a [WithSubscription] component. *)
Record WithSubscription : Type := {
  props : gmap string prop;
  _dcFetch : gmap string injected;
  _dcFetchTokens : list nat;
}.

(** ** What happens to a dispatcher over time *)

(** The calls of the application, and the answers of the client. *)
Inductive action : Type :=
| ActFetch (url : string) (data : value) (method : option string)
    (options : option obj)
| ActSingleGet (url : string) (params : value) (options : option obj)
| ActCancel (h : nat)
| ActDeliver (h : nat) (o : outcome)
| ActSetDefaults (i : nat) (f : axios_defaults → axios_defaults)
| ActCallerCancel (n : nat) (message : value).

Section Dispatcher.

(** [stringify] of the [qs] package. *)
Variable stringify : value → string.

(** The payload after [data = data || {}] and the optional
    [data = stringify(data)]. *)
Definition encode (form : bool) (data : value) : value :=
  if form then VStr (stringify data) else data.

(** [fetch(url, data = {}, method = 'get', options = {})]: an absent
    [method] is [None], an absent or [null] [options] is [None]. *)
Definition fetch (this : DcFetch) (url : string) (data : value)
    (method : option string) (options : option obj) : M nat :=
  let method := default "get" method in
  let data := js_or data (VObj ∅) in
  let options := default ∅ options in
  let successTip := destructure options "successTip" (VBool false) in
  let errorTip := destructure options "errorTip" (default_errorTip method) in
  let isGet := String.eqb method "get" in
  let isMock := isMock this url data method options in
  let instance :=
    if truthy isMock then mockInstance this else instance this in
  dflts <- get_defaults instance ;;
  hs <- lift (method_headers (headers dflts) method) ;;
  let defaultsContentType :=
    js_or (default VUndef (hs !! "Content-Type")) (VStr "") in
  let contentType :=
    js_or (js_and (get_prop (VObj options) "headers")
             (get_prop (get_prop (VObj options) "headers") "Content-Type"))
      (VStr "") in
  form <- lift (wants_form defaultsContentType contentType) ;;
  let data := encode form data in
  let params := if isGet then data else VObj ∅ in
  let data := if isGet then VObj ∅ else data in
  issue instance
    (λ h, spread_config (base_config method url data params h) options)
    successTip errorTip.

Definition get (this : DcFetch) (url : string) (params : value)
    (options : option obj) : M nat :=
  fetch this url params (Some "get") options.

Definition post (this : DcFetch) (url : string) (data : value)
    (options : option obj) : M nat :=
  fetch this url data (Some "post") options.

Definition put (this : DcFetch) (url : string) (data : value)
    (options : option obj) : M nat :=
  fetch this url data (Some "put") options.

Definition patch (this : DcFetch) (url : string) (data : value)
    (options : option obj) : M nat :=
  fetch this url data (Some "patch") options.

Definition del (this : DcFetch) (url : string) (data : value)
    (options : option obj) : M nat :=
  fetch this url data (Some "delete") options.

(** [this.singleGets[url]] finds the handle stored under [url]; without
    one it is [undefined], unless [url] is an inherited name: then
    [oldFetch] is the inherited member, which passes the test and has
    no [cancel] to call. *)
Definition singleGet (this : DcFetch) (url : string) (params : value)
    (options : option obj) : M nat :=
  λ w,
    let oldFetch := singleGets w !! url in
    (match oldFetch with
     | Some old => modify (cancel old)
     | None =>
         if decide (url ∈ Object_prototype)
         then throw (TypeError "oldFetch.cancel is not a function")
         else ret tt
     end ;;
     singleFetch <- fetch this url params (Some "get") options ;;
     modify (set_singleGets (insert url singleFetch)) ;;
     ret singleFetch) w.

(** A method of the class, by the arguments it takes. *)
Inductive class_method : Type :=
| OfInstance (f : nat → M unit)
    (* (instance) *)
| OfRequest (f : string → value → option string → option obj → M nat)
    (* (url, data, method, options) *)
| OfVerb (f : string → value → option obj → M nat).
    (* (url, data, options) *)

(** [dcFetch[name]] for the methods the class body defines, in the
    order of their definition. *)
Definition class_member (this : DcFetch) (name : string) :
    option class_method :=
  if String.eqb name "setDefaultOption" then Some (OfInstance setDefaultOption)
  else if String.eqb name "fetch" then Some (OfRequest (fetch this))
  else if String.eqb name "get" then Some (OfVerb (get this))
  else if String.eqb name "post" then Some (OfVerb (post this))
  else if String.eqb name "put" then Some (OfVerb (put this))
  else if String.eqb name "patch" then Some (OfVerb (patch this))
  else if String.eqb name "del" then Some (OfVerb (del this))
  else if String.eqb name "singleGet" then Some (OfVerb (singleGet this))
  else None.

(** [dcFetch[name]] as the injected methods call it, with
    [(url, data, options)]: the method of that name taking these
    arguments. *)
Definition member (this : DcFetch) (name : string) :
    option (string → value → option obj → M nat) :=
  match class_member this name with
  | Some (OfVerb f) => Some f
  | _ => None
  end.

(** ** [react-hoc.jsx] *)

Definition methods : list string :=
  ["get"; "post"; "put"; "patch"; "del"; "singleGet"].

Definition WithSubscription_constructor (props : gmap string prop) :
    WithSubscription :=
  {| props := props;
     _dcFetch := foldl (λ o method, <[method := Forward method]> o) ∅ methods;
     _dcFetchTokens := [] |}.

Definition push_token (h : nat) (c : WithSubscription) : WithSubscription :=
  {| props := props c; _dcFetch := _dcFetch c;
     _dcFetchTokens := _dcFetchTokens c ++ [h] |}.

(** A call [this._$dcFetch[name](url, data, options)] by the wrapped
    component. *)
Definition call_injected (dcFetch : DcFetch) (c : WithSubscription)
    (name url : string) (data : value) (options : option obj)
    (w : world) : result nat * WithSubscription * world :=
  match _dcFetch c !! name with
  | None => (Throw (TypeError (String.append name " is not a function")), c, w)
  | Some (Forward method) =>
      match member dcFetch method with
      | None =>
          (Throw (TypeError (String.append method " is not a function")), c, w)
      | Some f =>
          match f url data options w with
          | (Ok dcFetchToken, w') =>
              (Ok dcFetchToken, push_token dcFetchToken c, w')
          | (Throw e, w') => (Throw e, c, w')
          end
      end
  end.

Definition componentWillUnmount (c : WithSubscription) (w : world) : world :=
  foldl (λ w item, cancel item w) w (_dcFetchTokens c).

(** The props [render] passes to the wrapped component:
    [{...injectProps, ...this.props}]. *)
Definition injectProps (propName : string) (c : WithSubscription) :
    gmap string prop :=
  {[ propName := PMethods (_dcFetch c) ]}.

Definition render (propName : option string) (c : WithSubscription) :
    gmap string prop :=
  let propName := default "dcFetch" propName in
  props c ∪ injectProps propName c.

(** ** Runs *)

(** One action; a call that issues a request returns its handle, and
    only a handle that was returned can be cancelled. *)
Definition perform (this : DcFetch) (a : action) : M (option nat) :=
  match a with
  | ActFetch url data method options =>
      h <- fetch this url data method options ;; ret (Some h)
  | ActSingleGet url params options =>
      h <- singleGet this url params options ;; ret (Some h)
  | ActCancel h =>
      λ w, match requests w !! h with
           | Some _ => (Ok None, cancel h w)
           | None => (Ok None, w)
           end
  | ActDeliver h o => modify (deliver this h o) ;; ret None
  | ActSetDefaults i f => update_defaults i f ;; ret None
  | ActCallerCancel n message => modify (caller_cancel n message) ;; ret None
  end.

(** A sequence of actions, with the result of each. *)
Fixpoint run (this : DcFetch) (acts : list action) (w : world) :
    list (action * result (option nat)) * world :=
  match acts with
  | [] => ([], w)
  | a :: acts =>
      let (r, w1) := perform this a w in
      let (log, w2) := run this acts w1 in
      ((a, r) :: log, w2)
  end.


End Dispatcher.

(** ** Vocabulary of the properties *)

(** [needle] is a substring of [s]. *)
Definition occurs_in (needle s : string) : Prop :=
  ∃ pre post, s = String.append pre (String.append needle post).

(** A header value contains [needle]: as a substring when it is a
    string, as an element when it is an array. *)
Definition contains (v : value) (needle : string) : Prop :=
  match v with
  | VStr s => occurs_in needle s
  | VArr l => VStr needle ∈ l
  | _ => False
  end.

(** [options.headers['Content-Type']], [undefined] without headers. *)
Definition options_contentType (options : obj) : value :=
  get_prop (get_prop (VObj options) "headers") "Content-Type".

(** [defaults.headers[method]['Content-Type']] of an instance. *)
Definition defaults_contentType (w : world) (i : nat) (method : string) :
    value :=
  default VUndef
    (d ← instances w !! i; hs ← headers d !! method; hs !! "Content-Type").

(** A value [indexOf] can be called on to search a string, or one that
    is never searched because it is falsy. *)
Definition searchable (v : value) : Prop :=
  match v with
  | VStr _ | VArr _ => True
  | _ => truthy v = false
  end.

(** The per-method default or the per-call header asks for a
    form-encoded payload. *)
Definition form_requested (w : world) (i : nat) (method : string)
    (options : obj) : Prop :=
  contains (defaults_contentType w i method) form_urlencoded ∨
  contains (options_contentType options) form_urlencoded.

(** [payload] is what [data] becomes: its form encoding when one is
    requested, [data] itself otherwise. *)
Definition is_payload (stringify : value → string) (w : world) (i : nat)
    (method : string) (options : obj) (data payload : value) : Prop :=
  (form_requested w i method options ∧ payload = VStr (stringify data)) ∨
  (¬ form_requested w i method options ∧ payload = data).

(** The request a call of [fetch] records, given the payload. *)
Definition built_request (this : DcFetch) (url : string) (d : value)
    (m : string) (o : obj) (payload : value) (h : nat) : request :=
  {| rq_instance :=
       if truthy (isMock this url d m o)
       then mockInstance this else instance this;
     rq_config :=
       spread_config
         (base_config m url
            (if String.eqb m "get" then VObj ∅ else payload)
            (if String.eqb m "get" then payload else VObj ∅) h) o;
     rq_successTip := destructure o "successTip" (VBool false);
     rq_errorTip := destructure o "errorTip" (default_errorTip m) |}.

(** [f(url, data, options)] asks the client for [meth]: whenever the
    call returns, the configuration it handed to the client carries
    [meth] as its method and [url] as its url, unless [options] names
    them. *)
Definition requests_method (f : string → value → option obj → M nat)
    (meth : string) : Prop :=
  ∀ url data options w h w',
    f url data options w = (Ok h, w') →
    ∃ rq,
      requests w' !! h = Some rq ∧
      rq_config rq !! "method"
      = Some (default (Plain (VStr meth))
                (Plain <$> default ∅ options !! "method")) ∧
      rq_config rq !! "url"
      = Some (default (Plain (VStr url))
                (Plain <$> default ∅ options !! "url")).

(** What [setDefaultOption] makes of a [defaults] object whose headers
    for post and put are [hpost] and [hput]. *)
Definition configured (hpost hput : obj) (d : axios_defaults) :
    axios_defaults :=
  {| timeout := VNum 10000;
     headers :=
       <["put" := <["Content-Type" := VStr "application/json"]> hput]>
         (<["post" := <["Content-Type" := VStr "application/json"]> hpost]>
            (headers d));
     baseURL := VStr "/";
     withCredentials := VBool true |}.

(** States in which only answered requests have a settled promise, only
    issued requests are answered, and own tokens carry the reason that
    [cancel] gives. *)
Definition consistent (w : world) : Prop :=
  (∀ h, h ∈ answered w → h < length (requests w)) ∧
  (∀ h, is_Some (promises w !! h) → h ∈ answered w) ∧
  (∀ h e, own_tokens w !! h = Some e → e = Cancel canceled_message).


(** The handle a log entry records for [singleGet] on [url], if it is
    one. *)
Definition singleGet_of (url : string)
    (entry : action * result (option nat)) : option nat :=
  match entry with
  | (ActSingleGet u _ _, Ok (Some h)) =>
      if decide (u = url) then Some h else None
  | _ => None
  end.

(** The handle of the last successful [singleGet] on [url] in a log. *)
Definition latest (url : string)
    (log : list (action * result (option nat))) : option nat :=
  last (omap (singleGet_of url) log).

(** The calls of a notification hook among the events. *)
Definition is_tip (e : event) : bool :=
  match e with
  | EvSuccessTip _ _ | EvErrorTip _ _ => true
  | _ => false
  end.

Definition tips (tr : list event) : nat := length (List.filter is_tip tr).

(** ** Sample data *)

(** The defaults the client library ships with. *)
Definition stock_defaults : axios_defaults :=
  {| timeout := VNum 0;
     headers :=
       {[ "common" := {[ "Accept" := VStr "application/json, text/plain, */*" ]};
          "delete" := ∅; "get" := ∅; "head" := ∅;
          "post" := {[ "Content-Type" := VStr form_urlencoded ]};
          "put" := {[ "Content-Type" := VStr form_urlencoded ]};
          "patch" := {[ "Content-Type" := VStr form_urlencoded ]} ]};
     baseURL := VUndef;
     withCredentials := VUndef |}.

(** The state before anything was created, with a release of the
    library whose instances share the headers of the library's
    defaults. *)
Definition boot (library : axios_defaults) : world :=
  {| axios_global := library; create_shares_headers := true;
     created := []; singleGets := ∅;
     requests := []; promises := ∅; answered := ∅;
     own_tokens := ∅; caller_tokens := ∅; trace := [] |}.

(** The same with a release whose instances get headers of their own. *)
Definition boot_deep (library : axios_defaults) : world :=
  {| axios_global := library; create_shares_headers := false;
     created := []; singleGets := ∅;
     requests := []; promises := ∅; answered := ∅;
     own_tokens := ∅; caller_tokens := ∅; trace := [] |}.

(** A stand-in for the encoder: it only tells objects from the rest. *)
Definition sample_stringify (v : value) : string :=
  match v with
  | VObj _ => "k=v"
  | _ => ""
  end.

(** A dispatcher made with no options, and the state right after. *)
Definition plain_this : DcFetch :=
  {| instance := 0; mockInstance := 1; defaults := 0; mockDefaults := 1;
     onShowSuccessTip := λ _ _, Returns;
     onShowErrorTip := λ _ _, Returns;
     isMock := λ _ _ _ _, VBool false |}.

Definition fresh_world : world :=
  (constructor no_options (boot stock_defaults)).2.

Definition fresh_world_deep : world :=
  (constructor no_options (boot_deep stock_defaults)).2.

(** The states after the form type was made the default Content-Type
    of get through [mockDefaults]. *)
Definition form_get_world : world :=
  (set_header 1 "get" "Content-Type" (VStr form_urlencoded) fresh_world).2.

Definition form_get_world_deep : world :=
  (set_header 1 "get" "Content-Type" (VStr form_urlencoded)
     fresh_world_deep).2.

(** A dispatcher that mocks the urls under [/mock]. *)
Definition mock_by_prefix (url : string) (_ : value) (_ : string)
    (_ : obj) : value :=
  VBool (String.prefix "/mock" url).

Definition mocking_options : DcFetchOptions :=
  {| opt_onShowSuccessTip := None; opt_onShowErrorTip := None;
     opt_isMock := Some mock_by_prefix |}.

Definition mocking_this : DcFetch :=
  {| instance := 0; mockInstance := 1; defaults := 0; mockDefaults := 1;
     onShowSuccessTip := λ _ _, Returns;
     onShowErrorTip := λ _ _, Returns;
     isMock := mock_by_prefix |}.

(** A dispatcher whose success hook throws. *)
Definition boom : value := VStr "boom".

Definition throwing_options : DcFetchOptions :=
  {| opt_onShowSuccessTip := Some (λ _ _, Throws boom);
     opt_onShowErrorTip := None; opt_isMock := None |}.

Definition throwing_this : DcFetch :=
  {| instance := 0; mockInstance := 1; defaults := 0; mockDefaults := 1;
     onShowSuccessTip := λ _ _, Throws boom;
     onShowErrorTip := λ _ _, Returns;
     isMock := λ _ _ _ _, VBool false |}.

Definition page_query : value :=
  VObj {[ "pageNum" := VNum 1; "pageSize" := VNum 10 ]}.

Definition users_response : value :=
  VObj {[ "status" := VNum 200; "data" := VStr "alice,bob" ]}.

(** Options that bring a cancel token of the caller. *)
Definition own_token_options : obj :=
  {[ "cancelToken" := VToken 7; "successTip" := VStr "saved" ]}.

(** The state after one [get] of [/users]. *)
Definition users_world : world :=
  (get sample_stringify plain_this "/users" page_query None fresh_world).2.

(** The state after one [patch] of [/users], the one after a [post]
    that brings a cancel token, the one after a [get] under [/mock] by
    the mocking dispatcher, and the calls of a component. *)
Definition patch_world : world :=
  (patch sample_stringify plain_this "/users" page_query None fresh_world).2.

Definition override_world : world :=
  (post sample_stringify plain_this "/users" page_query
     (Some own_token_options) fresh_world).2.

Definition mock_world : world :=
  (get sample_stringify mocking_this "/mock/users" page_query None
     fresh_world).2.

Definition delete_world : world :=
  (del sample_stringify plain_this "/users/1" VUndef None fresh_world).2.

(** The state after [fetch] was called with the method head. *)
Definition head_world : world :=
  (fetch sample_stringify plain_this "/users" page_query (Some "head") None
     fresh_world).2.

Definition suggest_world : world :=
  (singleGet sample_stringify plain_this "/suggest" page_query None
     fresh_world).2.

Definition suggest_again_world : world :=
  (singleGet sample_stringify plain_this "/suggest" page_query None
     suggest_world).2.




(** A library without default headers, the state with one instance
    created from it, and the state with one instance of the stock
    library before and after [setDefaultOption]. *)
Definition bare_defaults : axios_defaults := with_headers ∅ stock_defaults.

Definition bare_world : world := (axios_create (boot bare_defaults)).2.

Definition one_instance_world : world :=
  (axios_create (boot stock_defaults)).2.

Definition configured_world : world :=
  (setDefaultOption 0 one_instance_world).2.

(** The state with two instances of the stock library, before and
    after [setDefaultOption] on the first. *)
Definition two_instance_world : world :=
  (axios_create one_instance_world).2.

Definition half_configured_world : world :=
  (setDefaultOption 0 two_instance_world).2.

(** The state after a [singleGet] of [/suggest] in which the default
    headers were then emptied through [defaults], and the one after a
    second [singleGet] of [/suggest] there. *)
Definition headless_world : world :=
  (update_defaults 0 (with_headers ∅) suggest_world).2.

Definition headless_again_world : world :=
  (singleGet sample_stringify plain_this "/suggest" page_query None
     headless_world).2.

(** The state after a [singleGet] of another url. *)
Definition other_url_world : world :=
  (singleGet sample_stringify plain_this "/other" page_query None
     suggest_world).2.

(** * Properties *)

(** ** Strings and header values *)


Lemma append_String a s t :
  String.append (String a s) t = String a (String.append s t).
Proof. reflexivity. Qed.

Lemma append_Empty t : String.append "" t = t.
Proof. reflexivity. Qed.

Lemma prefix_append s1 s2 :
  String.prefix s1 s2 = true ↔ ∃ post, s2 = String.append s1 post.
Proof.
  revert s2. induction s1 as [|a s1 IH]; intros s2.
  - destruct s2; simpl; split; eauto.
  - destruct s2 as [|b s2]; simpl.
    + split; [discriminate | intros [? ?]; discriminate].
    + destruct (Ascii.ascii_dec a b) as [->|Hne].
      * rewrite IH. split; intros [post Hp]; exists post;
          rewrite append_String in *; congruence.
      * split; [discriminate |].
        intros [? H]. rewrite append_String in H. congruence.
Qed.

Lemma index_0_String needle b s :
  String.index 0 needle (String b s) =
  if String.prefix needle (String b s) then Some 0
  else S <$> String.index 0 needle s.
Proof. simpl. by destruct (String.index 0 needle s). Qed.

Lemma index_occurs needle s :
  is_Some (String.index 0 needle s) ↔ occurs_in needle s.
Proof.
  induction s as [|b s IH].
  - destruct needle; simpl; split.
    + intros _. exists "", "". done.
    + done.
    + intros [? ?]; discriminate.
    + intros (pre & post & H). destruct pre; discriminate.
  - rewrite index_0_String.
    destruct (String.prefix needle (String b s)) eqn:Hp.
    + split; [|done]. intros _.
      apply prefix_append in Hp as [post Hp]. exists "", post. done.
    + rewrite fmap_is_Some, IH. split.
      * intros (pre & post & ->). exists (String b pre), post. done.
      * intros (pre & post & H). destruct pre as [|c pre].
        -- rewrite append_Empty in H.
           assert (String.prefix needle (String b s) = true); [|congruence].
           apply prefix_append. eauto.
        -- rewrite append_String in H. injection H as -> ->. exists pre, post. done.
Qed.

Lemma indexOf_found_contains v needle b :
  indexOf_found v needle = Ok b → b = true ↔ contains v needle.
Proof.
  destruct v; simpl; try discriminate; intros [= <-].
  - rewrite bool_decide_eq_true. apply index_occurs.
  - rewrite existsb_exists. split.
    + intros (x & Hin & Hx). destruct x; try discriminate.
      apply String.eqb_eq in Hx as ->. by apply list_elem_of_In.
    + intros Hin. exists (VStr needle). split; [by apply list_elem_of_In|].
      apply String.eqb_refl.
Qed.

Lemma falsy_contains v :
  truthy v = false → ¬ contains v form_urlencoded.
Proof.
  destruct v; simpl; try tauto; try discriminate.
  rewrite negb_false_iff, String.eqb_eq. intros -> (pre & post & H).
  destruct pre; cbv in H; discriminate.
Qed.

(** The value tested for a header that may be missing: [x || ''], where
    nothing is searched in [''] *)
Lemma indexOf_found_or v b :
  indexOf_found (js_or v (VStr "")) form_urlencoded = Ok b →
  b = true ↔ contains v form_urlencoded.
Proof.
  unfold js_or. destruct (truthy v) eqn:Hv.
  - apply indexOf_found_contains.
  - intros [= <-]. split; [done|]. intros ?. by apply falsy_contains in Hv.
Qed.

Lemma wants_form_spec x o form :
  wants_form (js_or x (VStr ""))
    (js_or (js_and (get_prop (VObj o) "headers") (options_contentType o))
       (VStr "")) = Ok form →
  form = true ↔
    contains x form_urlencoded ∨ contains (options_contentType o) form_urlencoded.
Proof.
  unfold wants_form.
  assert (∀ b, indexOf_found
                 (js_or (js_and (get_prop (VObj o) "headers")
                           (options_contentType o)) (VStr ""))
                 form_urlencoded = Ok b →
               b = true ↔ contains (options_contentType o) form_urlencoded)
    as Hct.
  { unfold js_and, options_contentType.
    destruct (truthy (get_prop (VObj o) "headers")) eqn:Hh.
    - apply indexOf_found_or.
    - intros b Hb. apply indexOf_found_or in Hb. rewrite Hb.
      split; intros Hc.
      + by apply falsy_contains in Hc.
      + destruct (get_prop (VObj o) "headers"); done. }
  destruct (truthy (js_or x (VStr ""))) eqn:Hx.
  - destruct (indexOf_found (js_or x (VStr "")) form_urlencoded)
      as [[]|] eqn:Hi; [| |done].
    + apply indexOf_found_or in Hi. intros [= <-]. tauto.
    + apply indexOf_found_or in Hi. intros Hb. apply Hct in Hb.
      rewrite Hb. split; [tauto|]. intros [Hc|Hc]; [|done].
      apply Hi in Hc. done.
  - intros Hb. apply Hct in Hb. rewrite Hb. split; [tauto|].
    intros [Hc|Hc]; [|done]. exfalso.
    unfold js_or in Hx. destruct (truthy x) eqn:Hx'; [congruence|].
    by apply falsy_contains in Hx'.
Qed.

(** ** One call of [fetch] *)

Section Properties.

Variable stringify : value → string.

Lemma method_headers_Ok (table : gmap string obj) method hs :
  method_headers table method = Ok hs →
  table !! method ≫= (.!! "Content-Type") = hs !! "Content-Type".
Proof.
  unfold method_headers. destruct (table !! method) as [hs'|].
  - by intros [= ->].
  - case_decide; [|done]. by intros [= <-].
Qed.

Lemma defaults_contentType_eq w i method dflts hs :
  instances w !! i = Some dflts →
  method_headers (headers dflts) method = Ok hs →
  defaults_contentType w i method = default VUndef (hs !! "Content-Type").
Proof.
  intros Hi Hh. unfold defaults_contentType.
  by rewrite Hi, <- (method_headers_Ok _ _ _ Hh).
Qed.

Lemma fetch_Ok this url data method options w h w' :
  fetch stringify this url data method options w = (Ok h, w') →
  let m := default "get" method in
  let d := js_or data (VObj ∅) in
  let o := default ∅ options in
  let rq payload := built_request this url d m o payload h in
  ∃ payload,
    is_payload stringify w (rq_instance (rq payload)) m o d payload ∧
    h = length (requests w) ∧
    w' = emit (EvRequest h) (set_requests (λ l, l ++ [rq payload]) w).
Proof.
  intros H m d o rq.
  unfold fetch, bind, get_defaults, lift, issue in H.
  fold m d o in H.
  set (inst := if truthy (isMock this url d m o)
               then mockInstance this else instance this) in *.
  destruct (instances w !! inst) as [dflts|] eqn:Hi; [|discriminate].
  destruct (method_headers (headers dflts) m) as [hs|] eqn:Hh; [|discriminate].
  fold (options_contentType o) in H.
  destruct (wants_form _ _) as [form|] eqn:Hf; [|discriminate].
  injection H as <- <-.
  exists (encode stringify form d). split; [|done].
  apply wants_form_spec in Hf.
  assert (defaults_contentType w inst m = default VUndef (hs !! "Content-Type"))
    as Hd by by eapply defaults_contentType_eq.
  unfold is_payload, form_requested. simpl. fold inst. rewrite Hd.
  destruct form; [left|right]; split; try done.
  - by apply Hf.
  - intros Hc. apply Hf in Hc. done.
Qed.

Lemma fetch_Throw this url data method options w e w' :
  fetch stringify this url data method options w = (Throw e, w') → w' = w.
Proof.
  unfold fetch, bind, get_defaults, lift, issue.
  repeat case_match; naive_solver.
Qed.


(** [fetch] returns a handle whenever the selected instance has default
    headers for the method and the Content-Type values it searches are
    strings or arrays (or are absent or falsy). *)
Lemma fetch_returns this url data method options w dflts hs :
  let m := default "get" method in
  let d := js_or data (VObj ∅) in
  let o := default ∅ options in
  let inst := if truthy (isMock this url d m o)
              then mockInstance this else instance this in
  instances w !! inst = Some dflts →
  headers dflts !! m = Some hs →
  searchable (default VUndef (hs !! "Content-Type")) →
  searchable (options_contentType o) →
  ∃ w', fetch stringify this url data method options w
        = (Ok (length (requests w)), w').
Proof.
  intros m d o inst Hi Hh Hs1 Hs2.
  assert (∀ v, searchable v →
            ∃ b, indexOf_found (js_or v (VStr "")) form_urlencoded = Ok b)
    as Hfound.
  { intros v Hv. unfold js_or. destruct (truthy v) eqn:Ht; [|by eexists].
    destruct v; simpl in *; try congruence; by eexists. }
  unfold fetch, bind, get_defaults, lift, issue, method_headers.
  fold m d o. fold inst. rewrite Hi, Hh.
  fold (options_contentType o).
  assert (∃ form,
            wants_form (js_or (default VUndef (hs !! "Content-Type")) (VStr ""))
              (js_or (js_and (get_prop (VObj o) "headers")
                        (options_contentType o)) (VStr ""))
            = Ok form) as [form ->]; [|by eexists].
  unfold wants_form.
  assert (∃ b, indexOf_found
                 (js_or (js_and (get_prop (VObj o) "headers")
                           (options_contentType o)) (VStr ""))
                 form_urlencoded = Ok b) as [b2 Hb2].
  { unfold js_and. destruct (truthy (get_prop (VObj o) "headers")) eqn:Hh'.
    - by apply Hfound.
    - unfold js_or. rewrite Hh'. by eexists. }
  destruct (Hfound _ Hs1) as [b1 Hb1]. rewrite Hb1, Hb2.
  repeat case_match; simplify_eq; by eexists.
Qed.

Lemma spread_config_lookup base (o : obj) k :
  spread_config base o !! k =
  match o !! k with
  | Some v => Some (Plain v)
  | None => base !! k
  end.
Proof.
  unfold spread_config. rewrite lookup_union, lookup_fmap.
  by destruct (o !! k), (base !! k).
Qed.

Lemma base_config_lookup m url body query h :
  let base := base_config m url body query h in
  base !! "method" = Some (Plain (VStr m)) ∧
  base !! "url" = Some (Plain (VStr url)) ∧
  base !! "data" = Some (Plain body) ∧
  base !! "params" = Some (Plain query) ∧
  base !! "cancelToken" = Some (OwnToken h).
Proof. repeat split; reflexivity. Qed.

(** What a successful [fetch] changes. *)
Lemma fetch_issues this url data method options w h w' :
  fetch stringify this url data method options w = (Ok h, w') →
  let m := default "get" method in
  let d := js_or data (VObj ∅) in
  let o := default ∅ options in
  ∃ payload,
    let rq := built_request this url d m o payload h in
    is_payload stringify w (rq_instance rq) m o d payload ∧
    h = length (requests w) ∧
    requests w' = requests w ++ [rq] ∧
    requests w' !! h = Some rq ∧
    trace w' = trace w ++ [EvRequest h] ∧
    instances w' = instances w ∧
    singleGets w' = singleGets w ∧
    promises w' = promises w ∧
    answered w' = answered w ∧
    own_tokens w' = own_tokens w ∧
    caller_tokens w' = caller_tokens w.
Proof.
  intros H m d o. apply fetch_Ok in H as (payload & Hp & -> & ->).
  exists payload. simpl. repeat split; try done.
  by apply list_lookup_middle.
Qed.

(** C4: for method get the configuration the dispatcher builds
    carries the caller's data (an absent or falsy payload being the
    empty object, and after the form encoding if one applies) in
    [params] and an empty object in [data]; for every other method
    the data is in [data] and [params] is an empty object.  The fields
    reach the client as built unless [options] names them. *)
Theorem fetch_places_payload this url data method options w h w' :
  fetch stringify this url data method options w = (Ok h, w') →
  let m := default "get" method in
  let d := js_or data (VObj ∅) in
  let o := default ∅ options in
  ∃ rq body query payload,
    requests w' !! h = Some rq ∧
    rq_config rq = spread_config (base_config m url body query h) o ∧
    is_payload stringify w (rq_instance rq) m o d payload ∧
    (truthy data = true → d = data) ∧
    (m = "get" → query = payload ∧ body = VObj ∅) ∧
    (m ≠ "get" → body = payload ∧ query = VObj ∅) ∧
    (o !! "params" = None → rq_config rq !! "params" = Some (Plain query)) ∧
    (o !! "data" = None → rq_config rq !! "data" = Some (Plain body)).
Proof.
  intros H m d o.
  apply fetch_issues in H as (payload & Hp & _ & _ & Hrq & _).
  fold m d o in Hp, Hrq.
  eexists _, _, _, payload. split; [exact Hrq|]. simpl.
  split; [reflexivity|]. split; [exact Hp|].
  split; [by unfold d, js_or; intros ->|].
  destruct (String.eqb_spec m "get") as [Hm|Hm].
  - repeat split; try done.
    + intros Ho. by rewrite spread_config_lookup, Ho.
    + intros Ho. by rewrite spread_config_lookup, Ho.
  - repeat split; try done.
    + intros Ho. by rewrite spread_config_lookup, Ho.
    + intros Ho. by rewrite spread_config_lookup, Ho.
Qed.


(** C5: the payload is the form encoding of the data exactly when the
    default Content-Type of the selected instance for the method, or
    the Content-Type among the headers of the call, contains
    application/x-www-form-urlencoded; otherwise it is the data as
    given. *)
Theorem fetch_form_encodes this url data method options w h w' :
  fetch stringify this url data method options w = (Ok h, w') →
  let m := default "get" method in
  let d := js_or data (VObj ∅) in
  let o := default ∅ options in
  ∃ rq body query,
    requests w' !! h = Some rq ∧
    rq_config rq = spread_config (base_config m url body query h) o ∧
    let payload := if String.eqb m "get" then query else body in
    let requested :=
      contains (defaults_contentType w (rq_instance rq) m) form_urlencoded ∨
      contains (options_contentType o) form_urlencoded in
    (requested → payload = VStr (stringify d)) ∧
    (¬ requested → payload = d).
Proof.
  intros H m d o.
  apply fetch_issues in H as (payload & Hp & _ & _ & Hrq & _).
  fold m d o in Hp, Hrq.
  eexists _, _, _. split; [exact Hrq|]. simpl.
  split; [reflexivity|].
  assert ((if String.eqb m "get"
           then if String.eqb m "get" then payload else VObj ∅
           else if String.eqb m "get" then VObj ∅ else payload) = payload)
    as -> by (by destruct (String.eqb m "get")).
  destruct Hp as [[Hf ->]|[Hf ->]]; split; intros Hr; done.
Qed.

(** ** Reading and writing the defaults of an instance *)

Lemma instances_length w : length (instances w) = length (created w).
Proof. unfold instances. by rewrite length_fmap. Qed.

Lemma instances_lookup w i :
  instances w !! i = read_defaults (axios_global w) <$> created w !! i.
Proof. unfold instances. by rewrite list_lookup_fmap. Qed.

(** A write leaves everything but the defaults alone. *)
Lemma write_defaults_frame i d w :
  let w' := write_defaults i d w in
  requests w' = requests w ∧
  promises w' = promises w ∧
  answered w' = answered w ∧
  own_tokens w' = own_tokens w ∧
  singleGets w' = singleGets w ∧
  trace w' = trace w ∧
  caller_tokens w' = caller_tokens w ∧
  create_shares_headers w' = create_shares_headers w ∧
  length (instances w') = length (instances w).
Proof.
  cbv zeta. unfold write_defaults. rewrite !instances_length.
  destruct (created w !! i) as [c|]; [|done].
  destruct (own_headers c); simpl; by rewrite length_insert.
Qed.

(** What was written is what is read. *)
Lemma write_defaults_read i d w :
  i < length (instances w) →
  instances (write_defaults i d w) !! i = Some d.
Proof.
  rewrite instances_length. intros Hlt.
  destruct (lookup_lt_is_Some_2 _ _ Hlt) as [c Hc].
  rewrite instances_lookup. unfold write_defaults. rewrite Hc.
  destruct (own_headers c); simpl; rewrite list_lookup_insert_eq by done;
    by destruct d.
Qed.

(** What the write does to another instance: its own fields are as
    they were, and so are its headers unless both instances have the
    library's headers object, where it reads what was written. *)
Lemma write_defaults_other i d w j di dj :
  j ≠ i →
  instances w !! i = Some di →
  instances w !! j = Some dj →
  ∃ dj',
    instances (write_defaults i d w) !! j = Some dj' ∧
    timeout dj' = timeout dj ∧
    baseURL dj' = baseURL dj ∧
    withCredentials dj' = withCredentials dj ∧
    (headers dj' = headers dj ∨
     (headers dj' = headers d ∧ headers dj = headers di)).
Proof.
  intros Hne. rewrite !instances_lookup. unfold write_defaults.
  destruct (created w !! i) as [ci|]; [|done].
  destruct (created w !! j) as [cj|] eqn:Hj; [|done].
  simpl. intros [= <-] [= <-].
  destruct (own_headers ci) eqn:Hi; simpl;
    rewrite list_lookup_insert_ne, Hj by done; simpl;
    eexists; (split; [done|]); simpl; repeat split; try done.
  - by left.
  - rewrite Hi. destruct (own_headers cj); simpl; [by left|by right].
Qed.

(** A second write of the same instance overwrites the first. *)
Lemma write_defaults_write i d1 d2 w :
  write_defaults i d2 (write_defaults i d1 w) = write_defaults i d2 w.
Proof.
  unfold write_defaults.
  destruct (created w !! i) as [c|] eqn:Hc; [|by rewrite Hc].
  assert (i < length (created w)) as Hlt by by eapply lookup_lt_Some.
  destruct (own_headers c) eqn:Ho; simpl;
    rewrite list_lookup_insert_eq by done; simpl;
    unfold set_created, set_axios_global; simpl;
    by rewrite list_insert_insert_eq.
Qed.

(** The fields the constructor gives the new object. *)
Lemma constructor_fields o w this w' :
  constructor o w = (Ok this, w') →
  instance this = length (instances w) ∧
  mockInstance this = S (length (instances w)) ∧
  defaults this = instance this ∧
  mockDefaults this = mockInstance this ∧
  onShowSuccessTip this = default (λ _ _, Returns) (opt_onShowSuccessTip o) ∧
  onShowErrorTip this = default (λ _ _, Returns) (opt_onShowErrorTip o) ∧
  isMock this = default (λ _ _ _ _, VBool false) (opt_isMock o).
Proof.
  rewrite instances_length.
  unfold constructor, bind, modify, axios_create, ret. simpl.
  rewrite length_app. simpl.
  repeat case_match; intros [= <- <-]; simpl; repeat split; lia.
Qed.

(** C6: a request goes through the mock instance exactly when the
    configured [isMock] answers true (a value that passes [if]) for
    it, and through the real instance otherwise; without an [isMock]
    given to the constructor every request goes through the real
    instance. *)
Theorem fetch_selects_instance o w0 this w1 url data method options w h w' :
  constructor o w0 = (Ok this, w1) →
  fetch stringify this url data method options w = (Ok h, w') →
  let m := default "get" method in
  let d := js_or data (VObj ∅) in
  let opts := default ∅ options in
  ∃ rq,
    requests w' !! h = Some rq ∧
    instance this ≠ mockInstance this ∧
    (rq_instance rq = mockInstance this ↔
       truthy (isMock this url d m opts) = true) ∧
    (rq_instance rq = instance this ↔
       truthy (isMock this url d m opts) = false) ∧
    (∀ f, opt_isMock o = Some f → isMock this = f) ∧
    (opt_isMock o = None → rq_instance rq = instance this).
Proof.
  intros Hc H m d opts.
  apply constructor_fields in Hc as (Hi & Hm & _ & _ & _ & _ & Hmock).
  apply fetch_issues in H as (payload & _ & _ & _ & Hrq & _).
  fold m d opts in Hrq.
  eexists. split; [exact Hrq|]. simpl.
  assert (instance this ≠ mockInstance this) as Hne by lia.
  split; [done|].
  repeat split.
  - destruct (truthy _); [done|]. intros ?. by destruct Hne.
  - intros ->. done.
  - destruct (truthy _); [|done]. intros ?. by destruct Hne.
  - intros ->. done.
  - intros f Hf. by rewrite Hmock, Hf.
  - intros Hf. by rewrite Hmock, Hf.
Qed.

Lemma cancel_own_tokens h w :
  is_Some (own_tokens (cancel h w) !! h) ∧
  (∀ h', h' ≠ h → own_tokens (cancel h w) !! h' = own_tokens w !! h') ∧
  caller_tokens (cancel h w) = caller_tokens w ∧
  trace (cancel h w) = trace w ++ [EvCancel h].
Proof.
  unfold cancel. simpl.
  destruct (own_tokens w !! h) eqn:Ho; simpl.
  - by rewrite Ho.
  - rewrite lookup_insert_eq. repeat split; try done.
    intros h' Hne. by rewrite lookup_insert_ne.
Qed.

(** C10: every key of [options] reaches the client with the value
    [options] gives it, whatever the dispatcher built for that key;
    when [options] has a [cancelToken] of its own, the [cancel] of the
    returned handle cancels the token made for the call only, which
    the request no longer watches, so the request is aborted neither
    more nor less than before. *)
Theorem options_override this url data method options w h w' :
  fetch stringify this url data method options w = (Ok h, w') →
  let o := default ∅ options in
  ∃ rq,
    requests w' !! h = Some rq ∧
    (∀ k v, o !! k = Some v → rq_config rq !! k = Some (Plain v)) ∧
    (∀ v, o !! "cancelToken" = Some v →
       ∀ w2,
         is_Some (own_tokens (cancel h w2) !! h) ∧
         abort_error (cancel h w2) (rq_config rq) =
         abort_error w2 (rq_config rq)) ∧
    (o !! "cancelToken" = None →
       rq_config rq !! "cancelToken" = Some (OwnToken h) ∧
       ∀ w2, is_Some (abort_error (cancel h w2) (rq_config rq))).
Proof.
  intros H o.
  apply fetch_issues in H as (payload & _ & _ & _ & Hrq & _).
  fold o in Hrq.
  eexists. split; [exact Hrq|]. simpl. repeat split.
  - intros k v Hk. by rewrite spread_config_lookup, Hk.
  - apply cancel_own_tokens.
  - unfold abort_error. rewrite spread_config_lookup, H.
    destruct v; try done.
    by destruct (cancel_own_tokens h w2) as (_ & _ & -> & _).
  - by rewrite spread_config_lookup, H.
  - intros w2. unfold abort_error. rewrite spread_config_lookup, H.
    apply cancel_own_tokens.
Qed.


(** ** The constructor *)

Lemma bind_Ok {A B} (m : M A) (k : A → M B) w a w1 :
  m w = (Ok a, w1) → bind m k w = k a w1.
Proof. unfold bind. by intros ->. Qed.

Lemma bind_Throw {A B} (m : M A) (k : A → M B) w e w1 :
  m w = (Throw e, w1) → bind m k w = (Throw e, w1).
Proof. unfold bind. by intros ->. Qed.

Lemma update_defaults_Ok i f w d :
  instances w !! i = Some d →
  update_defaults i f w = (Ok tt, write_defaults i (f d) w).
Proof.
  intros Hi. unfold update_defaults, bind, get_defaults, modify.
  by rewrite Hi.
Qed.

Lemma set_header_Ok i m k v w d hs :
  instances w !! i = Some d →
  headers d !! m = Some hs →
  set_header i m k v w =
  (Ok tt,
   write_defaults i (with_headers (<[m := <[k := v]> hs]> (headers d)) d) w).
Proof.
  intros Hi Hm. unfold set_header, bind at 1, get_defaults.
  rewrite Hi, Hm. by apply update_defaults_Ok.
Qed.

Lemma setDefaultOption_Ok i w d hpost hput :
  instances w !! i = Some d →
  headers d !! "post" = Some hpost →
  headers d !! "put" = Some hput →
  setDefaultOption i w = (Ok tt, write_defaults i (configured hpost hput d) w).
Proof.
  intros Hi Hpost Hput. unfold setDefaultOption.
  assert (i < length (instances w)) as Hlt by by eapply lookup_lt_Some.
  assert (∀ d1 w1, length (instances w1) = length (instances w) →
            instances (write_defaults i d1 w1) !! i = Some d1) as Hread.
  { intros d1 w1 Hlen. apply write_defaults_read. by rewrite Hlen. }
  erewrite bind_Ok; [|by apply update_defaults_Ok].
  erewrite bind_Ok; cycle 1.
  { eapply set_header_Ok; [by apply Hread|exact Hpost]. }
  rewrite write_defaults_write.
  erewrite bind_Ok; cycle 1.
  { eapply set_header_Ok; [by apply Hread|].
    simpl. by rewrite lookup_insert_ne. }
  rewrite write_defaults_write.
  erewrite bind_Ok; cycle 1.
  { eapply update_defaults_Ok. by apply Hread. }
  rewrite write_defaults_write.
  erewrite update_defaults_Ok by by apply Hread.
  by rewrite write_defaults_write.
Qed.

Lemma setDefaultOption_None i w :
  instances w !! i = None →
  setDefaultOption i w
  = (Throw (TypeError "Cannot read property defaults"), w).
Proof.
  intros Hi. unfold setDefaultOption, update_defaults, bind, get_defaults.
  by rewrite Hi.
Qed.

Lemma setDefaultOption_Throw_post i w d :
  instances w !! i = Some d →
  headers d !! "post" = None →
  setDefaultOption i w =
  (Throw (TypeError "Cannot set property Content-Type"),
   write_defaults i (with_timeout (VNum 10000) d) w).
Proof.
  intros Hi Hpost. unfold setDefaultOption.
  assert (i < length (instances w)) as Hlt by by eapply lookup_lt_Some.
  erewrite bind_Ok; [|by apply update_defaults_Ok].
  apply bind_Throw. unfold set_header, bind, get_defaults.
  rewrite write_defaults_read by done. simpl. by rewrite Hpost.
Qed.

Lemma setDefaultOption_Throw_put i w d hpost :
  instances w !! i = Some d →
  headers d !! "post" = Some hpost →
  headers d !! "put" = None →
  setDefaultOption i w =
  (Throw (TypeError "Cannot set property Content-Type"),
   write_defaults i
     (with_headers
        (<["post" := <["Content-Type" := VStr "application/json"]> hpost]>
           (headers d))
        (with_timeout (VNum 10000) d)) w).
Proof.
  intros Hi Hpost Hput. unfold setDefaultOption.
  assert (i < length (instances w)) as Hlt by by eapply lookup_lt_Some.
  erewrite bind_Ok; [|by apply update_defaults_Ok].
  erewrite bind_Ok; cycle 1.
  { eapply set_header_Ok; [by apply write_defaults_read|exact Hpost]. }
  rewrite write_defaults_write.
  apply bind_Throw. unfold set_header, bind, get_defaults.
  rewrite write_defaults_read by done. simpl.
  rewrite lookup_insert_ne by done. by rewrite Hput.
Qed.

(** [setDefaultOption] writes defaults and nothing else. *)
Lemma setDefaultOption_frame i w r w' :
  setDefaultOption i w = (r, w') →
  requests w' = requests w ∧
  promises w' = promises w ∧
  answered w' = answered w ∧
  own_tokens w' = own_tokens w ∧
  singleGets w' = singleGets w ∧
  trace w' = trace w ∧
  length (instances w') = length (instances w).
Proof.
  assert (∀ d, let w' := write_defaults i d w in
               requests w' = requests w ∧
               promises w' = promises w ∧
               answered w' = answered w ∧
               own_tokens w' = own_tokens w ∧
               singleGets w' = singleGets w ∧
               trace w' = trace w ∧
               length (instances w') = length (instances w)) as Hwrite.
  { intros d.
    destruct (write_defaults_frame i d w)
      as (? & ? & ? & ? & ? & ? & _ & _ & ?). done. }
  destruct (instances w !! i) as [d|] eqn:Hi.
  2: { rewrite setDefaultOption_None by done. by intros [= <- <-]. }
  destruct (headers d !! "post") as [hpost|] eqn:Hpost.
  2: { rewrite (setDefaultOption_Throw_post i w d) by done.
       intros [= <- <-]. apply Hwrite. }
  destruct (headers d !! "put") as [hput|] eqn:Hput.
  2: { rewrite (setDefaultOption_Throw_put i w d hpost) by done.
       intros [= <- <-]. apply Hwrite. }
  rewrite (setDefaultOption_Ok i w d hpost hput) by done.
  intros [= <- <-]. apply Hwrite.
Qed.

(** The headers [setDefaultOption] leaves are a fixed point of it. *)
Lemma configured_headers hpost hput d :
  let d' := configured hpost hput d in
  headers d' !! "post"
  = Some (<["Content-Type" := VStr "application/json"]> hpost) ∧
  headers d' !! "put"
  = Some (<["Content-Type" := VStr "application/json"]> hput) ∧
  ∀ d2, headers d2 = headers d' →
    configured (<["Content-Type" := VStr "application/json"]> hpost)
      (<["Content-Type" := VStr "application/json"]> hput) d2 = d'.
Proof.
  cbv zeta. unfold configured. simpl. split; [|split].
  - rewrite lookup_insert_ne by done. by rewrite lookup_insert_eq.
  - by rewrite lookup_insert_eq.
  - intros d2 ->. f_equal. apply map_eq. intros k.
    destruct (decide (k = "put")) as [->|Hput'].
    { rewrite !lookup_insert_eq. by rewrite insert_insert_eq. }
    rewrite !(lookup_insert_ne _ "put") by done.
    destruct (decide (k = "post")) as [->|Hpost'].
    { rewrite !lookup_insert_eq. by rewrite insert_insert_eq. }
    by rewrite !lookup_insert_ne by done.
Qed.

(** The two instances right after [axios.create()] was called twice. *)
Lemma axios_create_twice w :
  let n := length (instances w) in
  let w2 := (axios_create (axios_create w).2).2 in
  (axios_create w).1 = Ok n ∧
  (axios_create (axios_create w).2).1 = Ok (S n) ∧
  instances w2 !! n = Some (axios_global w) ∧
  instances w2 !! S n = Some (axios_global w) ∧
  axios_global w2 = axios_global w ∧
  length (instances w2) = S (S n) ∧
  (∀ i, i < n → instances w2 !! i = instances w !! i).
Proof.
  cbv zeta. rewrite !instances_length. unfold axios_create. simpl.
  rewrite length_app. simpl.
  replace (length (created w) + 1) with (S (length (created w))) by lia.
  split; [done|]. split; [done|].
  rewrite !instances_lookup. simpl.
  assert (read_defaults (axios_global w)
                 {| own_timeout := timeout (axios_global w);
                    own_headers :=
                      if create_shares_headers w then None
                      else Some (headers (axios_global w));
                    own_baseURL := baseURL (axios_global w);
                    own_withCredentials := withCredentials (axios_global w) |}
               = axios_global w) as Hread.
  { unfold read_defaults. simpl.
    destruct (create_shares_headers w); by destruct (axios_global w). }
  split.
  { rewrite lookup_app_l by (rewrite length_app; simpl; lia).
    rewrite list_lookup_middle by done. simpl. by rewrite Hread. }
  split.
  { rewrite list_lookup_middle by (rewrite length_app; simpl; lia).
    simpl. by rewrite Hread. }
  split; [done|]. split.
  { rewrite !length_app. simpl. lia. }
  intros i Hi. rewrite !instances_lookup. simpl.
  by rewrite !lookup_app_l by (rewrite ?length_app; simpl; lia).
Qed.

(** C8: the constructor creates two instances, distinct from each
    other, and gives both the same defaults: a timeout of 10000, the
    Content-Type application/json for post and for put, the base URL /
    and credentials on.  The [defaults] and [mockDefaults] it exposes
    are the defaults objects of the two instances themselves, so a
    later write through either is what that instance reads; the
    timeout, the base URL and the credentials flag of the other
    instance stay as they were. *)
Theorem constructor_defaults o w :
  is_Some (headers (axios_global w) !! "post") →
  is_Some (headers (axios_global w) !! "put") →
  ∃ this w' real mock,
    constructor o w = (Ok this, w') ∧
    instance this ≠ mockInstance this ∧
    instances w' !! instance this = Some real ∧
    instances w' !! mockInstance this = Some mock ∧
    real = mock ∧
    timeout real = VNum 10000 ∧
    defaults_contentType w' (instance this) "post" = VStr "application/json" ∧
    defaults_contentType w' (instance this) "put" = VStr "application/json" ∧
    defaults_contentType w' (mockInstance this) "post" = VStr "application/json" ∧
    defaults_contentType w' (mockInstance this) "put" = VStr "application/json" ∧
    baseURL real = VStr "/" ∧
    withCredentials real = VBool true ∧
    defaults this = instance this ∧
    mockDefaults this = mockInstance this ∧
    (∀ f, ∃ w2 mock',
       update_defaults (defaults this) f w' = (Ok tt, w2) ∧
       instances w2 !! instance this = Some (f real) ∧
       instances w2 !! mockInstance this = Some mock' ∧
       timeout mock' = timeout mock ∧
       baseURL mock' = baseURL mock ∧
       withCredentials mock' = withCredentials mock) ∧
    (∀ f, ∃ w2 real',
       update_defaults (mockDefaults this) f w' = (Ok tt, w2) ∧
       instances w2 !! mockInstance this = Some (f mock) ∧
       instances w2 !! instance this = Some real' ∧
       timeout real' = timeout real ∧
       baseURL real' = baseURL real ∧
       withCredentials real' = withCredentials real).
Proof.
  intros [hpost Hpost] [hput Hput].
  set (json := λ hs : obj, <["Content-Type" := VStr "application/json"]> hs).
  set (n := length (instances w)).
  (* the two instances are created *)
  set (w0 := set_singleGets (λ _, ∅) w).
  destruct (axios_create_twice w0) as (Hc1 & Hc2 & Hn & HSn & Hg & Hlen & _).
  change (length (instances w0)) with n in Hc1, Hc2, Hn, HSn, Hlen.
  set (w2 := (axios_create (axios_create w0).2).2) in *.
  change (axios_global w0) with (axios_global w) in *.
  (* the real instance is configured *)
  set (d := configured hpost hput (axios_global w)).
  destruct (configured_headers hpost hput (axios_global w))
    as (Hdpost & Hdput & Hfix). fold d in Hdpost, Hdput, Hfix.
  pose proof (setDefaultOption_Ok n w2 _ hpost hput Hn Hpost Hput) as Hs1.
  fold d in Hs1. set (w3 := write_defaults n d w2) in *.
  assert (instances w3 !! n = Some d) as Hn3.
  { apply write_defaults_read. rewrite Hlen. lia. }
  destruct (write_defaults_other n d w2 (S n) _ _ ltac:(lia) Hn HSn)
    as (m3 & HSn3 & Ht3 & Hb3 & Hw3 & Hh3).
  (* the mock instance is configured *)
  assert (∃ hpost' hput',
            headers m3 !! "post" = Some hpost' ∧
            headers m3 !! "put" = Some hput' ∧
            headers (configured hpost' hput' m3) = headers d) as
    (hpost' & hput' & Hmpost & Hmput & Hmd).
  { destruct Hh3 as [Hh|[Hh _]]; rewrite Hh.
    - exists hpost, hput. split; [done|]. split; [done|].
      unfold configured, d. simpl. by rewrite Hh.
    - exists (json hpost), (json hput). split; [done|]. split; [done|].
      exact (f_equal headers (Hfix m3 Hh)). }
  pose proof (setDefaultOption_Ok (S n) w3 _ hpost' hput' HSn3 Hmpost Hmput)
    as Hs2.
  set (m := configured hpost' hput' m3) in *.
  set (w4 := write_defaults (S n) m w3) in *.
  assert (length (instances w3) = S (S n)) as Hlen3.
  { unfold w3. by rewrite (proj2 (proj2 (proj2 (proj2 (proj2 (proj2 (proj2
      (proj2 (write_defaults_frame n d w2))))))))). }
  assert (instances w4 !! S n = Some m) as HSn4.
  { apply write_defaults_read. rewrite Hlen3. lia. }
  destruct (write_defaults_other (S n) m w3 n _ _ ltac:(lia) HSn3 Hn3)
    as (r4 & Hn4 & Ht4 & Hb4 & Hw4 & Hh4).
  assert (∀ x y : axios_defaults,
            timeout x = timeout y → headers x = headers y →
            baseURL x = baseURL y → withCredentials x = withCredentials y →
            x = y) as Hext by (intros [] []; simpl; congruence).
  assert (m = d) as Hmd' by by apply Hext.
  assert (r4 = d) as ->.
  { apply Hext; try done. destruct Hh4 as [?|[? _]]; congruence. }
  clearbody m. subst m.
  assert (length (instances w4) = S (S n)) as Hlen4.
  { unfold w4. by rewrite (proj2 (proj2 (proj2 (proj2 (proj2 (proj2 (proj2
      (proj2 (write_defaults_frame (S n) d w3))))))))). }
  (* the constructor *)
  assert (constructor o w =
          (Ok {| instance := n; mockInstance := S n;
                 defaults := n; mockDefaults := S n;
                 onShowSuccessTip :=
                   default (λ _ _, Returns) (opt_onShowSuccessTip o);
                 onShowErrorTip :=
                   default (λ _ _, Returns) (opt_onShowErrorTip o);
                 isMock := default (λ _ _ _ _, VBool false) (opt_isMock o) |},
           w4)) as Hcons.
  { assert (axios_create w0 = (Ok n, (axios_create w0).2)) as H1
      by (rewrite <- Hc1; apply surjective_pairing).
    assert (axios_create (axios_create w0).2 = (Ok (S n), w2)) as H2
      by (rewrite <- Hc2; apply surjective_pairing).
    unfold constructor.
    rewrite (bind_Ok _ _ w tt w0) by reflexivity.
    erewrite bind_Ok by exact H1. erewrite bind_Ok by exact H2.
    erewrite bind_Ok by exact Hs1. by erewrite bind_Ok by exact Hs2. }
  eexists _, w4, d, d. split; [exact Hcons|]. simpl.
  assert (∀ i k, instances w4 !! i = Some d →
            defaults_contentType w4 i k =
            default VUndef (headers d !! k ≫= (.!! "Content-Type"))) as Hct.
  { intros i k Hi. unfold defaults_contentType. by rewrite Hi. }
  assert (default VUndef (headers d !! "post" ≫= (.!! "Content-Type"))
          = VStr "application/json") as Hp.
  { rewrite Hdpost. simpl. by rewrite lookup_insert_eq. }
  assert (default VUndef (headers d !! "put" ≫= (.!! "Content-Type"))
          = VStr "application/json") as Hu.
  { rewrite Hdput. simpl. by rewrite lookup_insert_eq. }
  split; [lia|]. split; [done|]. split; [done|]. split; [done|].
  split; [done|]. rewrite !Hct by done. split; [done|]. split; [done|].
  split; [done|]. split; [done|]. split; [done|]. split; [done|].
  split; [done|]. split; [done|]. split.
  - intros f.
    destruct (write_defaults_other n (f d) w4 (S n) _ _ ltac:(lia) Hn4 HSn4)
      as (mock' & Hm' & ? & ? & ? & _).
    exists (write_defaults n (f d) w4), mock'.
    split; [by apply update_defaults_Ok|].
    split; [apply write_defaults_read; rewrite Hlen4; lia|]. done.
  - intros f.
    destruct (write_defaults_other (S n) (f d) w4 n _ _ ltac:(lia) HSn4 Hn4)
      as (real' & Hr' & ? & ? & ? & _).
    exists (write_defaults (S n) (f d) w4), real'.
    split; [by apply update_defaults_Ok|].
    split; [apply write_defaults_read; rewrite Hlen4; lia|]. done.
Qed.


(** ** The verb methods *)

Lemma class_member_is_Some this name :
  is_Some (class_member stringify this name) ↔
  name ∈ ["setDefaultOption"; "fetch"; "get"; "post"; "put"; "patch"; "del";
          "singleGet"].
Proof.
  split.
  - unfold class_member.
    destruct (String.eqb_spec name "setDefaultOption") as [->|?]; [set_solver|].
    destruct (String.eqb_spec name "fetch") as [->|?]; [set_solver|].
    destruct (String.eqb_spec name "get") as [->|?]; [set_solver|].
    destruct (String.eqb_spec name "post") as [->|?]; [set_solver|].
    destruct (String.eqb_spec name "put") as [->|?]; [set_solver|].
    destruct (String.eqb_spec name "patch") as [->|?]; [set_solver|].
    destruct (String.eqb_spec name "del") as [->|?]; [set_solver|].
    destruct (String.eqb_spec name "singleGet") as [->|?]; [set_solver|].
    intros Hs. by apply is_Some_None in Hs.
  - rewrite !elem_of_cons, elem_of_nil.
    intros [->|[->|[->|[->|[->|[->|[->|[->|[]]]]]]]]]; by eexists.
Qed.


(** [singleGet] in terms of [cancel] and [fetch]. *)
Lemma singleGet_unfold this url params options w :
  let w0 := match singleGets w !! url with
            | Some old => cancel old w
            | None => w
            end in
  singleGet stringify this url params options w =
  if bool_decide (singleGets w !! url = None ∧ url ∈ Object_prototype)
  then (Throw (TypeError "oldFetch.cancel is not a function"), w)
  else
    match fetch stringify this url params (Some "get") options w0 with
    | (Ok h, w1) => (Ok h, set_singleGets (insert url h) w1)
    | (Throw e, w1) => (Throw e, w1)
    end.
Proof.
  cbv zeta. unfold singleGet.
  destruct (singleGets w !! url) as [old|].
  - rewrite bool_decide_eq_false_2 by (by intros [? _]).
    unfold bind at 1, modify, ret.
    unfold bind; by destruct (fetch _ _ _ _ _ _ _) as [[]].
  - case_decide as Hin.
    + by rewrite bool_decide_eq_true_2.
    + rewrite bool_decide_eq_false_2 by (by intros [_ ?]).
      unfold bind at 1, modify, ret.
      unfold bind; by destruct (fetch _ _ _ _ _ _ _) as [[]].
Qed.

(** The method and the url of the request a call of [fetch] hands to
    the client. *)
Lemma fetch_requests_method this url data method options w h w' :
  fetch stringify this url data method options w = (Ok h, w') →
  ∃ rq,
    requests w' !! h = Some rq ∧
    rq_config rq !! "method"
    = Some (default (Plain (VStr (default "get" method)))
              (Plain <$> default ∅ options !! "method")) ∧
    rq_config rq !! "url"
    = Some (default (Plain (VStr url))
              (Plain <$> default ∅ options !! "url")).
Proof.
  intros H. apply fetch_issues in H as (payload & _ & _ & _ & Hrq & _).
  eexists. split; [exact Hrq|]. cbn [rq_config built_request].
  rewrite !spread_config_lookup.
  split; by destruct (default ∅ options !! _).
Qed.

(** C9 (as amended): the class has the six request methods get, post,
    put, patch, del and singleGet, and next to them [fetch] itself, a
    request method that takes the method as an argument, and
    [setDefaultOption].  Each of get, post, put, patch and del is
    [fetch] on the same url, data and options with its method fixed,
    so that the request it issues asks the client for get, post, put,
    patch, and delete for [del], unless [options] names a method. *)
Theorem verbs_are_fetch this url data options :
  get stringify this url data options =
    fetch stringify this url data (Some "get") options ∧
  post stringify this url data options =
    fetch stringify this url data (Some "post") options ∧
  put stringify this url data options =
    fetch stringify this url data (Some "put") options ∧
  patch stringify this url data options =
    fetch stringify this url data (Some "patch") options ∧
  del stringify this url data options =
    fetch stringify this url data (Some "delete") options ∧
  requests_method (get stringify this) "get" ∧
  requests_method (post stringify this) "post" ∧
  requests_method (put stringify this) "put" ∧
  requests_method (patch stringify this) "patch" ∧
  requests_method (del stringify this) "delete" ∧
  requests_method (singleGet stringify this) "get" ∧
  (∀ meth,
     requests_method
       (λ url data options, fetch stringify this url data (Some meth) options)
       meth) ∧
  (∀ name, is_Some (class_member stringify this name) ↔
             name ∈ ["setDefaultOption"; "fetch"; "get"; "post"; "put";
                     "patch"; "del"; "singleGet"]) ∧
  class_member stringify this "setDefaultOption"
  = Some (OfInstance setDefaultOption) ∧
  class_member stringify this "fetch"
  = Some (OfRequest (fetch stringify this)) ∧
  class_member stringify this "get" = Some (OfVerb (get stringify this)) ∧
  class_member stringify this "post" = Some (OfVerb (post stringify this)) ∧
  class_member stringify this "put" = Some (OfVerb (put stringify this)) ∧
  class_member stringify this "patch" = Some (OfVerb (patch stringify this)) ∧
  class_member stringify this "del" = Some (OfVerb (del stringify this)) ∧
  class_member stringify this "singleGet"
  = Some (OfVerb (singleGet stringify this)).
Proof.
  assert (∀ meth,
            requests_method
              (λ url data options,
                 fetch stringify this url data (Some meth) options) meth)
    as Hfetch.
  { intros meth u d o w h w' H. by apply fetch_requests_method in H. }
  assert (requests_method (singleGet stringify this) "get") as Hsingle.
  { intros u d o w h w'. rewrite singleGet_unfold.
    case_bool_decide; [done|].
    destruct (fetch _ _ _ _ _ _ _) as [[h'|e] w1] eqn:Hf; [|done].
    intros [= <- <-]. apply fetch_requests_method in Hf. exact Hf. }
  repeat split; try reflexivity; try apply class_member_is_Some;
    try apply Hfetch; exact Hsingle.
Qed.


(** ** Answers of the client *)

(** Reduce the projections of an updated state, and nothing else. *)
Ltac fields :=
  cbn [axios_global create_shares_headers created singleGets requests
       promises answered own_tokens caller_tokens trace set_axios_global
       set_created set_singleGets set_requests set_promises set_answered
       set_own_tokens set_caller_tokens emit] in *.

Lemma settle_frame h s w :
  requests (settle h s w) = requests w ∧
  answered (settle h s w) = answered w ∧
  own_tokens (settle h s w) = own_tokens w ∧
  singleGets (settle h s w) = singleGets w ∧
  instances (settle h s w) = instances w ∧
  trace (settle h s w) = trace w ∧
  (∀ h', h' ≠ h → promises (settle h s w) !! h' = promises w !! h').
Proof.
  unfold settle. destruct (promise_state w h); simpl; repeat split; try done.
  intros h' Hne. by rewrite lookup_insert_ne.
Qed.

Lemma settle_pending h s w :
  promise_state w h = Pending →
  promise_state (settle h s w) h = s.
Proof.
  intros Hp. unfold settle. rewrite Hp. unfold promise_state. simpl.
  by rewrite lookup_insert_eq.
Qed.

(** What an answer leaves alone. *)
Lemma deliver_frame this h o w :
  let w' := deliver this h o w in
  requests w' = requests w ∧
  own_tokens w' = own_tokens w ∧
  singleGets w' = singleGets w ∧
  instances w' = instances w ∧
  (∀ h', h' ≠ h → promises w' !! h' = promises w !! h') ∧
  (∀ h', h' ∈ answered w' ↔
           h' ∈ answered w ∨ (h' = h ∧ h < length (requests w))).
Proof.
  cbv zeta. unfold deliver, resolve, reject.
  destruct (requests w !! h) as [rq|] eqn:Hrq.
  2: { repeat split; try done; try tauto.
       intros [?|[-> Hlt]]; [done|]. apply lookup_ge_None in Hrq. lia. }
  apply lookup_lt_Some in Hrq.
  case_bool_decide as Hans.
  { repeat split; try done; try tauto. by intros [?|[-> _]]. }
  assert (∀ h', h' ∈ ({[h]} ∪ answered w : gset nat) ↔
                 h' ∈ answered w ∨ h' = h ∧ h < length (requests w))
    as Hin.
  { intros h'. rewrite elem_of_union, elem_of_singleton. tauto. }
  destruct o as [response|err].
  - destruct (onShowSuccessTip this response (rq_successTip rq));
      [destruct (read_prop response "data")|];
      match goal with
      | |- context [settle h ?s ?w0] =>
          destruct (settle_frame h s w0) as (-> & -> & -> & -> & -> & _ & Hp)
      end; fields; repeat split; try done; try (by apply Hin);
      intros h' Hne; by rewrite Hp.
  - destruct (truthy (isCanceled err)).
    + fields. repeat split; try done; by apply Hin.
    + destruct (onShowErrorTip this err (rq_errorTip rq));
        match goal with
        | |- context [settle h ?s ?w0] =>
            destruct (settle_frame h s w0) as (-> & -> & -> & -> & -> & _ & Hp)
        end; fields; repeat split; try done; try (by apply Hin);
        intros h' Hne; by rewrite Hp.
Qed.

(** The first answer to a request whose promise is pending. *)
Lemma deliver_Fulfilled this h response w rq :
  requests w !! h = Some rq →
  h ∉ answered w →
  promise_state w h = Pending →
  let w' := deliver this h (Fulfilled response) w in
  trace w' = trace w ++ [EvSuccessTip response (rq_successTip rq)] ∧
  promise_state w' h =
    match onShowSuccessTip this response (rq_successTip rq) with
    | Throws error => Rejected error
    | Returns =>
        match read_prop response "data" with
        | Ok data => Resolved data
        | Throw error => Rejected error
        end
    end.
Proof.
  intros Hrq Hans Hp. cbv zeta. unfold deliver, resolve, reject.
  rewrite Hrq, bool_decide_eq_false_2 by done.
  assert (∀ s w0, promises w0 = promises w →
            promise_state (settle h s w0) h = s) as Hs.
  { intros s w0 Hw0. apply settle_pending.
    unfold promise_state in *. by rewrite Hw0. }
  destruct (onShowSuccessTip this response (rq_successTip rq));
    [destruct (read_prop response "data")|];
    match goal with
    | |- context [settle h ?s ?w0] =>
        destruct (settle_frame h s w0) as (_ & _ & _ & _ & _ & -> & _)
    end; split; try done; by apply Hs.
Qed.

Lemma deliver_Failed this h err w rq :
  requests w !! h = Some rq →
  h ∉ answered w →
  promise_state w h = Pending →
  truthy (isCanceled err) = false →
  let w' := deliver this h (Failed err) w in
  trace w' = trace w ++ [EvErrorTip err (rq_errorTip rq)] ∧
  promise_state w' h =
    match onShowErrorTip this err (rq_errorTip rq) with
    | Throws error => Rejected error
    | Returns => Rejected err
    end.
Proof.
  intros Hrq Hans Hp Hc. cbv zeta. unfold deliver, resolve, reject.
  rewrite Hrq, bool_decide_eq_false_2, Hc by done.
  assert (∀ s w0, promises w0 = promises w →
            promise_state (settle h s w0) h = s) as Hs.
  { intros s w0 Hw0. apply settle_pending.
    unfold promise_state in *. by rewrite Hw0. }
  destruct (onShowErrorTip this err (rq_errorTip rq));
    match goal with
    | |- context [settle h ?s ?w0] =>
        destruct (settle_frame h s w0) as (_ & _ & _ & _ & _ & -> & _)
    end; split; try done; by apply Hs.
Qed.

(** An answer that carries the canceled flag runs no callback. *)
Lemma deliver_canceled this h err w :
  truthy (isCanceled err) = true →
  let w' := deliver this h (Failed err) w in
  trace w' = trace w ∧ promises w' = promises w.
Proof.
  intros Hc. cbv zeta. unfold deliver. rewrite Hc.
  destruct (requests w !! h); [|done]. by case_bool_decide.
Qed.

(** C7 (as amended): when the client answers a request with a
    response, [onShowSuccessTip] is called with the response and the
    [successTip] option (false when the option is absent), and the
    promise resolves with [response.data] provided the hook returns and
    the response has properties to read; when it answers with an error
    that does not carry the canceled flag, [onShowErrorTip] is called
    with the error and the [errorTip] option and the promise rejects
    with that error provided the hook returns.  What a callback throws
    is what the promise rejects with. *)
Theorem deliver_notifies_and_settles this url data method options w h w1 :
  fetch stringify this url data method options w = (Ok h, w1) →
  let m := default "get" method in
  let o := default ∅ options in
  ∃ rq,
    requests w1 !! h = Some rq ∧
    rq_successTip rq = destructure o "successTip" (VBool false) ∧
    (o !! "successTip" = None → rq_successTip rq = VBool false) ∧
    rq_errorTip rq = destructure o "errorTip" (default_errorTip m) ∧
    ∀ w2,
      requests w2 !! h = Some rq →
      h ∉ answered w2 →
      promise_state w2 h = Pending →
      (∀ response,
         let w3 := deliver this h (Fulfilled response) w2 in
         trace w3 = trace w2 ++ [EvSuccessTip response (rq_successTip rq)] ∧
         promise_state w3 h =
           match onShowSuccessTip this response (rq_successTip rq) with
           | Throws error => Rejected error
           | Returns =>
               match read_prop response "data" with
               | Ok data => Resolved data
               | Throw error => Rejected error
               end
           end ∧
         (onShowSuccessTip this response (rq_successTip rq) = Returns →
          response ≠ VUndef → response ≠ VNull →
          promise_state w3 h = Resolved (get_prop response "data"))) ∧
      (∀ err,
         truthy (isCanceled err) = false →
         let w3 := deliver this h (Failed err) w2 in
         trace w3 = trace w2 ++ [EvErrorTip err (rq_errorTip rq)] ∧
         promise_state w3 h =
           match onShowErrorTip this err (rq_errorTip rq) with
           | Throws error => Rejected error
           | Returns => Rejected err
           end).
Proof.
  intros H m o.
  apply fetch_issues in H as (payload & _ & _ & _ & Hrq & _).
  fold m o in Hrq.
  eexists. split; [exact Hrq|]. cbn [rq_successTip rq_errorTip built_request].
  split; [done|]. split; [by unfold destructure; intros ->|]. split; [done|].
  intros w2 Hrq2 Hans Hp. split.
  - intros response.
    destruct (deliver_Fulfilled this h response w2 _ Hrq2 Hans Hp) as [Ht Hs].
    cbv zeta. split; [exact Ht|]. split; [exact Hs|].
    intros Hr Hu Hn. cbn [rq_successTip built_request] in Hs, Hr.
    rewrite Hs, Hr. by destruct response.
  - intros err Hc.
    exact (deliver_Failed this h err w2 _ Hrq2 Hans Hp Hc).
Qed.


(** ** Runs *)

Lemma cancel_frame h w :
  requests (cancel h w) = requests w ∧
  promises (cancel h w) = promises w ∧
  answered (cancel h w) = answered w ∧
  singleGets (cancel h w) = singleGets w ∧
  instances (cancel h w) = instances w.
Proof. unfold cancel. fields. by destruct (own_tokens w !! h). Qed.

Lemma cancel_reason h w :
  (∀ h' e, own_tokens w !! h' = Some e → e = Cancel canceled_message) →
  ∀ h' e, own_tokens (cancel h w) !! h' = Some e → e = Cancel canceled_message.
Proof.
  intros Hw h' e. unfold cancel. fields.
  destruct (own_tokens w !! h) eqn:Ho; fields; [by apply Hw|].
  destruct (decide (h' = h)) as [->|Hne].
  - rewrite lookup_insert_eq. by intros [= <-].
  - rewrite lookup_insert_ne by done. by apply Hw.
Qed.

Lemma caller_cancel_frame n message w :
  requests (caller_cancel n message w) = requests w ∧
  promises (caller_cancel n message w) = promises w ∧
  answered (caller_cancel n message w) = answered w ∧
  own_tokens (caller_cancel n message w) = own_tokens w ∧
  singleGets (caller_cancel n message w) = singleGets w ∧
  trace (caller_cancel n message w) = trace w.
Proof. unfold caller_cancel. by destruct (caller_tokens w !! n). Qed.

Lemma cancel_consistent h w : consistent w → consistent (cancel h w).
Proof.
  intros (Ha & Hp & Ht).
  destruct (cancel_frame h w) as (Hr & Hps & Han & _).
  unfold consistent. rewrite Hr, Hps, Han.
  repeat split; try done. by apply cancel_reason.
Qed.

Lemma deliver_consistent this h o w :
  consistent w → consistent (deliver this h o w).
Proof.
  intros (Ha & Hp & Ht).
  destruct (deliver_frame this h o w) as (Hr & Hto & _ & _ & Hps & Han).
  unfold consistent. rewrite Hr, Hto. repeat split; [| |done].
  - intros h' [Hin|[-> Hlt]]%Han; [by apply Ha|done].
  - intros h' Hs. destruct (decide (h' = h)) as [->|Hne].
    + apply Han. destruct (decide (h ∈ answered w)) as [|Hn]; [by left|].
      right. split; [done|].
      destruct (requests w !! h) eqn:Hrq; [by eapply lookup_lt_Some|].
      unfold deliver in Hs. rewrite Hrq in Hs. apply Hp in Hs. done.
    + apply Han. left. apply Hp. by rewrite <- Hps.
Qed.

Lemma fetch_consistent this url data method options w r w' :
  fetch stringify this url data method options w = (r, w') →
  consistent w → consistent w'.
Proof.
  intros H (Ha & Hp & Ht). destruct r as [h|e].
  - apply fetch_issues in H
      as (payload & _ & _ & Hr & _ & _ & _ & _ & Hps & Han & Hto & _).
    unfold consistent. rewrite Hr, Hps, Han, Hto, length_app.
    repeat split; try done. intros h' Hin. apply Ha in Hin. lia.
  - by apply fetch_Throw in H as ->.
Qed.


Lemma singleGet_consistent this url params options w r w' :
  singleGet stringify this url params options w = (r, w') →
  consistent w → consistent w'.
Proof.
  rewrite singleGet_unfold. case_bool_decide as Hinh; [by intros [= <- <-]|].
  intros H Hw.
  set (w0 := match singleGets w !! url with
             | Some old => cancel old w
             | None => w
             end) in *.
  assert (consistent w0) as Hw0.
  { unfold w0. destruct (singleGets w !! url); [by apply cancel_consistent|done]. }
  destruct (fetch _ _ _ _ _ _ _) as [[h|e] w1] eqn:Hf;
    apply fetch_consistent in Hf; try done; by injection H as <- <-.
Qed.

Lemma update_defaults_frame i f w r w' :
  update_defaults i f w = (r, w') →
  requests w' = requests w ∧
  promises w' = promises w ∧
  answered w' = answered w ∧
  own_tokens w' = own_tokens w ∧
  singleGets w' = singleGets w ∧
  trace w' = trace w.
Proof.
  unfold update_defaults, bind, get_defaults, modify.
  destruct (instances w !! i) as [d|]; intros [= <- <-]; [|done].
  destruct (write_defaults_frame i (f d) w) as (? & ? & ? & ? & ? & ? & _).
  done.
Qed.

Lemma perform_consistent this a w r w' :
  perform stringify this a w = (r, w') →
  consistent w → consistent w'.
Proof.
  destruct a as [url data method options|url params options|h|h o|i f|n msg];
    unfold perform, bind, modify, ret.
  - destruct (fetch _ _ _ _ _ _ _) as [[] ?] eqn:Hf; intros [= <- <-];
      by eapply fetch_consistent.
  - destruct (singleGet _ _ _ _ _ _) as [[] ?] eqn:Hf; intros [= <- <-];
      by eapply singleGet_consistent.
  - destruct (requests w !! h); intros [= <- <-]; [|done].
    apply cancel_consistent.
  - intros [= <- <-]. apply deliver_consistent.
  - destruct (update_defaults i f w) as [[] w1] eqn:Hu; intros [= <- <-];
      apply update_defaults_frame in Hu as (Hr & Hp & Ha & Ht & _);
      unfold consistent; by rewrite Hr, Hp, Ha, Ht.
  - intros [= <- <-].
    destruct (caller_cancel_frame n msg w) as (Hr & Hp & Ha & Ht & _).
    unfold consistent. by rewrite Hr, Hp, Ha, Ht.
Qed.

Lemma run_consistent this acts w :
  consistent w → consistent (run stringify this acts w).2.
Proof.
  revert w. induction acts as [|a acts IH]; intros w Hw; [done|].
  simpl. destruct (perform stringify this a w) as [r w1] eqn:Hp.
  specialize (IH w1). destruct (run stringify this acts w1) as [log w2].
  simpl in *. apply IH. by eapply perform_consistent.
Qed.


Lemma deliver_answered this h o w :
  h ∈ answered w → deliver this h o w = w.
Proof.
  intros Hin. unfold deliver. destruct (requests w !! h); [|done].
  by rewrite bool_decide_eq_true_2.
Qed.

(** Once a request is answered, nothing changes its promise. *)
Lemma perform_settled this a w r w' h :
  perform stringify this a w = (r, w') →
  h ∈ answered w →
  h ∈ answered w' ∧ promises w' !! h = promises w !! h.
Proof.
  destruct a as [url data method options|url params options|h0|h0 o|i f|n msg];
    unfold perform, bind, modify, ret.
  - destruct (fetch _ _ _ _ _ _ _) as [[] ?] eqn:Hf; intros [= <- <-] Hin.
    + apply fetch_issues in Hf
        as (payload & _ & _ & _ & _ & _ & _ & _ & -> & -> & _). done.
    + by apply fetch_Throw in Hf as ->.
  - rewrite singleGet_unfold.
    case_bool_decide as Hinh; [by intros [= <- <-]|].
    set (w0 := match singleGets w !! url with
               | Some old => cancel old w
               | None => w
               end).
    assert (answered w0 = answered w ∧ promises w0 = promises w) as [Ha Hp].
    { unfold w0. destruct (singleGets w !! url); [|done].
      by destruct (cancel_frame n w) as (_ & -> & -> & _). }
    destruct (fetch _ _ _ _ _ _ _) as [[] ?] eqn:Hf; intros [= <- <-] Hin.
    + apply fetch_issues in Hf
        as (payload & _ & _ & _ & _ & _ & _ & _ & Hp' & Ha' & _).
      fields. by rewrite Hp', Ha', Hp, Ha.
    + apply fetch_Throw in Hf as ->. by rewrite Hp, Ha.
  - destruct (requests w !! h0); intros [= <- <-] Hin; [|done].
    by destruct (cancel_frame h0 w) as (_ & -> & -> & _).
  - intros [= <- <-] Hin.
    destruct (decide (h0 = h)) as [->|Hne]; [by rewrite deliver_answered|].
    destruct (deliver_frame this h0 o w) as (_ & _ & _ & _ & Hps & Han).
    split; [apply Han; by left|]. by apply Hps.
  - destruct (update_defaults i f w) as [[] w1] eqn:Hu; intros [= <- <-] Hin;
      by apply update_defaults_frame in Hu as (_ & -> & -> & _).
  - intros [= <- <-] Hin.
    by destruct (caller_cancel_frame n msg w) as (_ & -> & -> & _).
Qed.

Lemma run_settled this acts w h :
  h ∈ answered w →
  promise_state (run stringify this acts w).2 h = promise_state w h.
Proof.
  revert w. induction acts as [|a acts IH]; intros w Hin; [done|].
  simpl. destruct (perform stringify this a w) as [r w1] eqn:Hp.
  specialize (IH w1). destruct (run stringify this acts w1) as [log w2].
  simpl in *. apply (perform_settled _ _ _ _ _ h) in Hp as [Hin1 Hp1]; [|done].
  rewrite IH by done. unfold promise_state. by rewrite Hp1.
Qed.

(** Requests are only ever added. *)
Lemma perform_requests this a w r w' :
  perform stringify this a w = (r, w') →
  ∃ more, requests w' = requests w ++ more.
Proof.
  destruct a as [url data method options|url params options|h0|h0 o|i f|n msg];
    unfold perform, bind, modify, ret.
  - destruct (fetch _ _ _ _ _ _ _) as [[] ?] eqn:Hf; intros [= <- <-].
    + apply fetch_issues in Hf as (payload & _ & _ & -> & _). by eexists.
    + apply fetch_Throw in Hf as ->. exists []. by rewrite app_nil_r.
  - rewrite singleGet_unfold.
    case_bool_decide as Hinh;
      [intros [= <- <-]; exists []; by rewrite app_nil_r|].
    set (w0 := match singleGets w !! url with
               | Some old => cancel old w
               | None => w
               end).
    assert (requests w0 = requests w) as Hr.
    { unfold w0. destruct (singleGets w !! url); [|done].
      by destruct (cancel_frame n w) as (-> & _). }
    destruct (fetch _ _ _ _ _ _ _) as [[] ?] eqn:Hf; intros [= <- <-].
    + apply fetch_issues in Hf as (payload & _ & _ & Hr' & _).
      fields. rewrite Hr', Hr. by eexists.
    + apply fetch_Throw in Hf as ->. exists []. by rewrite app_nil_r.
  - destruct (requests w !! h0); intros [= <- <-]; exists [];
      [|by rewrite app_nil_r].
    destruct (cancel_frame h0 w) as (-> & _). by rewrite app_nil_r.
  - intros [= <- <-]. exists [].
    destruct (deliver_frame this h0 o w) as (-> & _). by rewrite app_nil_r.
  - destruct (update_defaults i f w) as [[] w1] eqn:Hu; intros [= <- <-];
      apply update_defaults_frame in Hu as (-> & _); exists [];
      by rewrite app_nil_r.
  - intros [= <- <-]. exists [].
    destruct (caller_cancel_frame n msg w) as (-> & _). by rewrite app_nil_r.
Qed.

Lemma run_requests this acts w :
  ∃ more, requests (run stringify this acts w).2 = requests w ++ more.
Proof.
  revert w. induction acts as [|a acts IH]; intros w.
  { exists []. by rewrite app_nil_r. }
  simpl. destruct (perform stringify this a w) as [r w1] eqn:Hp.
  specialize (IH w1). destruct (run stringify this acts w1) as [log w2].
  simpl in *. apply perform_requests in Hp as [more1 Hm1].
  destruct IH as [more2 ->]. rewrite Hm1, <- (assoc_L (++)). by eexists.
Qed.

(** The flag [cancel] sets is the one the error callback tests. *)
Lemma cancel_sets_flag : truthy (isCanceled (Cancel canceled_message)) = true.
Proof. reflexivity. Qed.

(** C2: the handle [fetch] returns can be cancelled, which gives its
    token a reason that carries the canceled flag and with which the
    request is aborted unless [options] replaced the token; and when
    the request ends with an error whose message carries that flag,
    neither hook is called and the promise is neither resolved nor
    rejected, then or ever after. *)
Theorem canceled_request_is_silent this url data method options w h w1
    acts err :
  consistent w →
  fetch stringify this url data method options w = (Ok h, w1) →
  let w2 := (run stringify this acts w1).2 in
  h ∉ answered w2 →
  truthy (isCanceled err) = true →
  let w3 := deliver this h (Failed err) w2 in
  (∃ e, own_tokens (cancel h w2) !! h = Some e ∧
        truthy (isCanceled e) = true ∧
        (default ∅ options !! "cancelToken" = None →
         ∃ rq, requests w1 !! h = Some rq ∧
               abort_error (cancel h w2) (rq_config rq) = Some e)) ∧
  promise_state w2 h = Pending ∧
  trace w3 = trace w2 ∧
  promise_state w3 h = Pending ∧
  ∀ acts', promise_state (run stringify this acts' w3).2 h = Pending.
Proof.
  intros Hw Hf w2 Hans Hc w3.
  assert (consistent w2) as Hw2.
  { apply run_consistent. by eapply fetch_consistent. }
  apply fetch_issues in Hf as (payload & _ & Hh & Hr1 & Hrq & _).
  assert (promise_state w2 h = Pending) as Hp2.
  { destruct Hw2 as (_ & Hp & _). unfold promise_state.
    destruct (promises w2 !! h) eqn:Hl; [|done].
    destruct Hans. apply Hp. by rewrite Hl. }
  destruct (deliver_canceled this h err w2 Hc) as [Ht3 Hp3]. fold w3 in Ht3, Hp3.
  assert (promise_state w3 h = Pending) as Hp3'.
  { unfold promise_state in *. by rewrite Hp3. }
  split; [|split; [done|split; [done|split; [done|]]]].
  - destruct (cancel_own_tokens h w2) as ([e He] & _).
    exists e. split; [done|].
    assert (e = Cancel canceled_message) as ->.
    { eapply cancel_reason; [|exact He]. apply Hw2. }
    split; [apply cancel_sets_flag|].
    intros Ho. eexists. split; [exact Hrq|].
    unfold abort_error. cbn [rq_config built_request].
    by rewrite spread_config_lookup, Ho.
  - intros acts'.
    destruct (decide (h ∈ answered w3)) as [Hin|Hn].
    + by rewrite run_settled.
    + (* the request is unknown to [w2]: impossible after [fetch] *)
      exfalso. apply Hn.
      apply (deliver_frame this h (Failed err) w2). right. split; [done|].
      destruct (run_requests this acts w1) as [more Hm]. fold w2 in Hm.
      rewrite Hm, Hr1, !length_app. simpl. lia.
Qed.


(** ** [singleGet] *)

Lemma latest_cons url entry log :
  latest url (entry :: log) =
  match latest url log with
  | Some h => Some h
  | None => singleGet_of url entry
  end.
Proof.
  unfold latest. simpl.
  destruct (singleGet_of url entry) as [h|]; [|by destruct (last _)].
  rewrite last_cons. by destruct (last _).
Qed.

(** What one action does to [this.singleGets]. *)
Lemma perform_singleGets this a w r w' url :
  perform stringify this a w = (r, w') →
  singleGets w' !! url =
  match singleGet_of url (a, r) with
  | Some h => Some h
  | None => singleGets w !! url
  end.
Proof.
  destruct a as [u data method options|u params options|h0|h0 o|i f|n msg];
    unfold perform, bind, modify, ret.
  - destruct (fetch _ _ _ _ _ _ _) as [[] ?] eqn:Hf; intros [= <- <-]; simpl.
    + by apply fetch_issues in Hf
        as (payload & _ & _ & _ & _ & _ & _ & -> & _).
    + by apply fetch_Throw in Hf as ->.
  - rewrite singleGet_unfold.
    case_bool_decide as Hinh; [by intros [= <- <-]|].
    set (w0 := match singleGets w !! u with
               | Some old => cancel old w
               | None => w
               end).
    assert (singleGets w0 = singleGets w) as Hs.
    { unfold w0. destruct (singleGets w !! u); [|done].
      by destruct (cancel_frame n w) as (_ & _ & _ & -> & _). }
    destruct (fetch _ _ _ _ _ _ _) as [[] ?] eqn:Hf; intros [= <- <-]; simpl.
    + apply fetch_issues in Hf
        as (payload & _ & _ & _ & _ & _ & _ & Hs' & _).
      rewrite Hs', Hs. destruct (decide (u = url)) as [->|Hne].
      * by rewrite lookup_insert_eq.
      * by rewrite lookup_insert_ne.
    + apply fetch_Throw in Hf as ->. by rewrite Hs.
  - destruct (requests w !! h0); intros [= <- <-]; simpl; [|done].
    by destruct (cancel_frame h0 w) as (_ & _ & _ & -> & _).
  - intros [= <- <-]. simpl.
    by destruct (deliver_frame this h0 o w) as (_ & _ & -> & _).
  - destruct (update_defaults i f w) as [[] w1] eqn:Hu; intros [= <- <-];
      simpl; by apply update_defaults_frame in Hu as (_ & _ & _ & _ & -> & _).
  - intros [= <- <-]. simpl.
    by destruct (caller_cancel_frame n msg w) as (_ & _ & _ & _ & -> & _).
Qed.

Lemma run_singleGets this acts w url :
  singleGets (run stringify this acts w).2 !! url =
  match latest url (run stringify this acts w).1 with
  | Some h => Some h
  | None => singleGets w !! url
  end.
Proof.
  revert w. induction acts as [|a acts IH]; intros w; [done|].
  simpl. destruct (perform stringify this a w) as [r w1] eqn:Hp.
  specialize (IH w1). destruct (run stringify this acts w1) as [log w2].
  simpl in *. rewrite latest_cons, IH.
  destruct (latest url log); [done|].
  by eapply perform_singleGets.
Qed.

(** C1 (as amended): for a url that is not a name every object
    inherits, [singleGet] first cancels the handle stored under the
    url, if there is one, then calls [fetch] for a get request.  When
    [fetch] returns, the request is issued and its handle is stored
    under the url and returned; this is the case when the selected
    instance has default headers for get and the Content-Type values
    are text.  When [fetch] throws, so does [singleGet]: nothing is
    issued and the map is as it was, so that it still holds the handle
    just cancelled.  So after any sequence of calls the map holds, for
    every url, the handle of the last request [singleGet] issued for
    it. *)
Theorem singleGet_keeps_latest this :
  (∀ url params options w r w',
     url ∉ Object_prototype →
     singleGet stringify this url params options w = (r, w') →
     let w0 := match singleGets w !! url with
               | Some old => cancel old w
               | None => w
               end in
     (∀ old, singleGets w !! url = Some old →
        trace w0 = trace w ++ [EvCancel old] ∧
        is_Some (own_tokens w' !! old)) ∧
     match r with
     | Ok h =>
         ∃ w1,
           fetch stringify this url params (Some "get") options w0 = (Ok h, w1) ∧
           trace w' = trace w0 ++ [EvRequest h] ∧
           h = length (requests w) ∧
           length (requests w') = S (length (requests w)) ∧
           singleGets w' !! url = Some h ∧
           ∀ u, u ≠ url → singleGets w' !! u = singleGets w !! u
     | Throw e =>
         fetch stringify this url params (Some "get") options w0 = (Throw e, w') ∧
         w' = w0 ∧
         requests w' = requests w ∧
         singleGets w' = singleGets w
     end) ∧
  (∀ url params options w dflts hs,
     let o := default ∅ options in
     let inst := if truthy (isMock this url (js_or params (VObj ∅)) "get" o)
                 then mockInstance this else instance this in
     url ∉ Object_prototype →
     instances w !! inst = Some dflts →
     headers dflts !! "get" = Some hs →
     searchable (default VUndef (hs !! "Content-Type")) →
     searchable (options_contentType o) →
     ∃ h w', singleGet stringify this url params options w = (Ok h, w')) ∧
  (∀ acts w url,
     singleGets (run stringify this acts w).2 !! url =
     match latest url (run stringify this acts w).1 with
     | Some h => Some h
     | None => singleGets w !! url
     end).
Proof.
  split; [|split; [|intros; apply run_singleGets]]; cycle 1.
  { intros url params options w dflts hs o inst Hurl Hi Hh Hs1 Hs2.
    rewrite singleGet_unfold.
    rewrite bool_decide_eq_false_2 by (by intros [_ ?]).
    set (w0 := match singleGets w !! url with
               | Some old => cancel old w
               | None => w
               end).
    assert (instances w0 = instances w) as Hw0.
    { unfold w0. destruct (singleGets w !! url); [|done].
      by destruct (cancel_frame n w) as (_ & _ & _ & _ & ->). }
    destruct (fetch_returns this url params (Some "get") options w0 dflts hs)
      as [w1 ->]; try done; [by rewrite Hw0|by eexists _, _]. }
  intros url params options w r w' Hurl. rewrite singleGet_unfold.
  rewrite bool_decide_eq_false_2 by (by intros [_ ?]).
  set (w0 := match singleGets w !! url with
             | Some old => cancel old w
             | None => w
             end).
  intros H. cbv zeta.
  assert (singleGets w0 = singleGets w ∧ requests w0 = requests w) as [Hs Hr].
  { unfold w0. destruct (singleGets w !! url); [|done].
    by destruct (cancel_frame n w) as (-> & _ & _ & -> & _). }
  assert (own_tokens w' = own_tokens w0) as Ht.
  { destruct (fetch _ _ _ _ _ _ _) as [[h|e] w1] eqn:Hf; injection H as <- <-;
      fields.
    - by apply fetch_issues in Hf
        as (payload & _ & _ & _ & _ & _ & _ & _ & _ & _ & -> & _).
    - by apply fetch_Throw in Hf as ->. }
  split.
  - intros old Hold. rewrite Ht. unfold w0. rewrite Hold.
    destruct (cancel_own_tokens old w) as (? & _ & _ & ?). done.
  - destruct (fetch _ _ _ _ _ _ _) as [[h|e] w1] eqn:Hf; injection H as <- <-.
    + exists w1. split; [done|].
      apply fetch_issues in Hf
        as (payload & _ & Hh & Hr' & _ & Htr & _ & Hs' & _).
      fields. rewrite Hr', length_app, Hs', Hs, <- Hr. simpl.
      repeat split; try done.
      * lia.
      * by rewrite lookup_insert_eq.
      * intros u Hne. by rewrite lookup_insert_ne.
    + apply fetch_Throw in Hf as ->. done.
Qed.


(** ** The higher-order component *)

Lemma injected_table (p : gmap string prop) name :
  _dcFetch (WithSubscription_constructor p) !! name =
  if decide (name ∈ methods) then Some (Forward name) else None.
Proof.
  unfold WithSubscription_constructor, methods. cbn [_dcFetch foldl].
  case_decide as Hin.
  - rewrite !elem_of_cons, elem_of_nil in Hin.
    destruct Hin as [->|[->|[->|[->|[->|[->|[]]]]]]]; reflexivity.
  - rewrite !elem_of_cons, elem_of_nil in Hin.
    rewrite !lookup_insert_ne by (intros <-; tauto). done.
Qed.

Lemma call_injected_table dcFetch c name url data options w :
  _dcFetch (call_injected stringify dcFetch c name url data options w).1.2
  = _dcFetch c.
Proof.
  unfold call_injected. destruct (_dcFetch c !! name) as [[method]|]; [|done].
  destruct (member stringify dcFetch method) as [f|]; [|done].
  by destruct (f url data options w) as [[] ?].
Qed.



Lemma componentWillUnmount_cancels c w :
  let w' := componentWillUnmount c w in
  trace w' = trace w ++ (EvCancel <$> _dcFetchTokens c) ∧
  ∀ h, h ∈ _dcFetchTokens c → is_Some (own_tokens w' !! h).
Proof.
  unfold componentWillUnmount. cbv zeta.
  generalize (_dcFetchTokens c). intros l. revert w.
  induction l as [|h l IH] using rev_ind; intros w.
  { simpl. rewrite app_nil_r. split; [done|]. by intros h ?%elem_of_nil. }
  rewrite foldl_app, fmap_app. simpl.
  destruct (IH w) as [Ht Ho].
  destruct (cancel_own_tokens h (foldl (λ w item, cancel item w) w l))
    as (Hh & Hother & _ & Htr).
  split.
  - by rewrite Htr, Ht, <- (assoc_L (++)).
  - intros h' [Hin|Heq%list_elem_of_singleton]%elem_of_app; [|by subst].
    destruct (decide (h' = h)) as [->|Hne]; [done|].
    rewrite Hother by done. by apply Ho.
Qed.



(** ** States that can be reached *)

Lemma boot_consistent library : consistent (boot library).
Proof.
  repeat split; simpl.
  - intros h Hin. by apply not_elem_of_empty in Hin.
  - intros h [s Hs]. by rewrite lookup_empty in Hs.
  - intros h e He. by rewrite lookup_empty in He.
Qed.

Lemma constructor_consistent o w r w' :
  constructor o w = (r, w') → consistent w → consistent w'.
Proof.
  unfold constructor, bind at 1, modify.
  unfold bind at 1, axios_create at 1.
  unfold bind at 1, axios_create at 1.
  unfold bind, ret.
  destruct (setDefaultOption _ _) as [[] w1] eqn:H1.
  - destruct (setDefaultOption _ w1) as [[] w2] eqn:H2;
      intros [= <- <-];
      apply setDefaultOption_frame in H1 as (Hr1 & Hp1 & Ha1 & Ht1 & _);
      apply setDefaultOption_frame in H2 as (Hr2 & Hp2 & Ha2 & Ht2 & _);
      unfold consistent; by rewrite Hr2, Hp2, Ha2, Ht2, Hr1, Hp1, Ha1, Ht1.
  - intros [= <- <-].
    apply setDefaultOption_frame in H1 as (Hr1 & Hp1 & Ha1 & Ht1 & _).
    unfold consistent. by rewrite Hr1, Hp1, Ha1, Ht1.
Qed.

End Properties.









(** * The properties on sample calls *)

Example constructor_sample :
  constructor no_options (boot stock_defaults) = (Ok plain_this, fresh_world).
Proof. vm_compute. reflexivity. Qed.

(** [setDefaultOption] leaves the form encoding that the library
    defaults give patch. *)
Example patch_sends_form_body :
  patch sample_stringify plain_this "/users" page_query None fresh_world
  = (Ok 0, patch_world) ∧
  (rq_config <$> requests patch_world !! 0) ≫= (.!! "data")
  = Some (Plain (VStr "k=v")).
Proof. vm_compute. split; reflexivity. Qed.

Example fetch_unknown_method_throws :
  fetch sample_stringify plain_this "/users" page_query (Some "options")
    None fresh_world
  = (Throw (TypeError "Cannot read property Content-Type"), fresh_world).
Proof. vm_compute. reflexivity. Qed.

(** A method name every object inherits has a member for [headers] to
    find, so that the request is issued. *)
Example fetch_inherited_method_returns :
  (fetch sample_stringify plain_this "/users" page_query (Some "constructor")
     None fresh_world).1 = Ok 0.
Proof. vm_compute. reflexivity. Qed.

(** Where the instances share the headers of the library, a header
    written through [mockDefaults] is read through [defaults] and
    through the library's defaults, and changes what the real instance
    is handed; the constructor itself has changed the library's
    defaults. *)
Example shared_headers_reach_the_real_instance :
  defaults_contentType form_get_world 0 "get" = VStr form_urlencoded ∧
  headers (axios_global form_get_world) !! "get" ≫= (.!! "Content-Type")
  = Some (VStr form_urlencoded) ∧
  headers (axios_global fresh_world) !! "post" ≫= (.!! "Content-Type")
  = Some (VStr "application/json") ∧
  (rq_config <$>
     requests (get sample_stringify plain_this "/users" page_query None
                 form_get_world).2 !! 0) ≫= (.!! "params")
  = Some (Plain (VStr "k=v")).
Proof.
  split; [vm_compute; reflexivity|].
  split; [vm_compute; reflexivity|].
  split; vm_compute; reflexivity.
Qed.

(** Where every instance has headers of its own, it does not. *)
Example own_headers_stay_apart :
  defaults_contentType form_get_world_deep 1 "get" = VStr form_urlencoded ∧
  defaults_contentType form_get_world_deep 0 "get" = VUndef ∧
  headers (axios_global fresh_world_deep) !! "post" ≫= (.!! "Content-Type")
  = Some (VStr form_urlencoded) ∧
  (rq_config <$>
     requests (get sample_stringify plain_this "/users" page_query None
                 form_get_world_deep).2 !! 0) ≫= (.!! "params")
  = Some (Plain page_query).
Proof.
  split; [vm_compute; reflexivity|].
  split; [vm_compute; reflexivity|].
  split; vm_compute; reflexivity.
Qed.

Lemma not_inherited name :
  (if bool_decide (name ∈ Object_prototype) then False else True) →
  name ∉ Object_prototype.
Proof. case_bool_decide; [done|]. by intros _. Qed.

Lemma fresh_world_consistent : consistent fresh_world.
Proof.
  repeat split.
  - intros h Hin. vm_compute in Hin. discriminate.
  - intros h [s Hs]. vm_compute in Hs. discriminate.
  - intros h e He. vm_compute in He. discriminate.
Qed.

Lemma singleGet_keeps_latest_witness :
  singleGet sample_stringify plain_this "/suggest" page_query None
    suggest_world = (Ok 1, suggest_again_world) ∧
  singleGets suggest_world !! "/suggest" = Some 0 ∧
  trace (cancel 0 suggest_world) = trace suggest_world ++ [EvCancel 0] ∧
  is_Some (own_tokens suggest_again_world !! 0) ∧
  singleGets suggest_again_world !! "/suggest" = Some 1.
Proof.
  assert (singleGet sample_stringify plain_this "/suggest" page_query None
            suggest_world = (Ok 1, suggest_again_world)) as H
    by (vm_compute; reflexivity).
  assert (singleGets suggest_world !! "/suggest" = Some 0) as Hold
    by (vm_compute; reflexivity).
  assert ("/suggest" ∉ Object_prototype) as Hurl
    by (apply not_inherited; vm_compute; exact I).
  split; [exact H|]. split; [exact Hold|].
  destruct (singleGet_keeps_latest sample_stringify plain_this) as [Hone _].
  destruct (Hone _ _ _ _ _ _ Hurl H)
    as [Hcancel (w1 & _ & _ & _ & _ & Hnew & _)].
  destruct (Hcancel 0 Hold) as [Htrace Htoken].
  rewrite Hold in Htrace. split; [exact Htrace|]. split; [exact Htoken|].
  exact Hnew.
Defined.

(** C1 as stated fails in two ways.  For a url that is a name every
    object inherits, the lookup finds the inherited member: the call
    throws, and nothing is cancelled, issued or stored.  And when
    [fetch] throws (here the default headers were emptied), the handle
    stored under the url has been cancelled, no request is issued, and
    the map still holds the cancelled handle. *)
Lemma singleGet_does_not_always_issue :
  singleGet sample_stringify plain_this "constructor" page_query None
    fresh_world
  = (Throw (TypeError "oldFetch.cancel is not a function"), fresh_world) ∧
  singleGets fresh_world !! "constructor" = None ∧
  singleGets headless_world !! "/suggest" = Some 0 ∧
  own_tokens headless_world !! 0 = None ∧
  singleGet sample_stringify plain_this "/suggest" page_query None
    headless_world
  = (Throw (TypeError "Cannot read property Content-Type"),
     headless_again_world) ∧
  requests headless_again_world = requests headless_world ∧
  singleGets headless_again_world !! "/suggest" = Some 0 ∧
  own_tokens headless_again_world !! 0 = Some (Cancel canceled_message).
Proof.
  split; [vm_compute; reflexivity|].
  split; [vm_compute; reflexivity|].
  split; [vm_compute; reflexivity|].
  split; [vm_compute; reflexivity|].
  split; [vm_compute; reflexivity|].
  split; [vm_compute; reflexivity|].
  split; [vm_compute; reflexivity|].
  vm_compute; reflexivity.
Qed.

Lemma fetch_places_payload_witness :
  fetch sample_stringify plain_this "/users" page_query (Some "get") None
    fresh_world = (Ok 0, users_world) ∧
  ∃ rq query,
    requests users_world !! 0 = Some rq ∧
    rq_config rq !! "params" = Some (Plain query) ∧
    rq_config rq !! "data" = Some (Plain (VObj ∅)).
Proof.
  assert (fetch sample_stringify plain_this "/users" page_query (Some "get")
            None fresh_world = (Ok 0, users_world)) as H
    by (vm_compute; reflexivity).
  split; [exact H|].
  destruct (fetch_places_payload sample_stringify _ _ _ _ _ _ _ _ H)
    as (rq & body & query & payload & Hrq & Hcfg & _ & _ & Hget & _ & Hp & Hd).
  exists rq, query. split; [exact Hrq|].
  destruct (Hget eq_refl) as [_ <-].
  split; [apply Hp|apply Hd]; vm_compute; reflexivity.
Defined.

Lemma fetch_form_encodes_witness :
  fetch sample_stringify plain_this "/users" page_query (Some "patch") None
    fresh_world = (Ok 0, patch_world) ∧
  ∃ rq body query,
    requests patch_world !! 0 = Some rq ∧
    rq_config rq = spread_config (base_config "patch" "/users" body query 0) ∅ ∧
    body = VStr (sample_stringify page_query).
Proof.
  assert (fetch sample_stringify plain_this "/users" page_query (Some "patch")
            None fresh_world = (Ok 0, patch_world)) as H
    by (vm_compute; reflexivity).
  split; [exact H|].
  destruct (fetch_form_encodes sample_stringify _ _ _ _ _ _ _ _ H)
    as (rq & body & query & Hrq & Hcfg & Hform & _).
  exists rq, body, query. split; [exact Hrq|]. split; [exact Hcfg|].
  apply Hform. left.
  assert (rq_instance rq = 0) as ->.
  { vm_compute in Hrq. by injection Hrq as <-. }
  vm_compute. exists "", "". reflexivity.
Defined.

Lemma fetch_selects_instance_witness :
  constructor mocking_options (boot stock_defaults)
  = (Ok mocking_this, fresh_world) ∧
  fetch sample_stringify mocking_this "/mock/users" page_query (Some "get")
    None fresh_world = (Ok 0, mock_world) ∧
  ∃ rq, requests mock_world !! 0 = Some rq ∧ rq_instance rq = 1.
Proof.
  assert (constructor mocking_options (boot stock_defaults)
          = (Ok mocking_this, fresh_world)) as Hc by (vm_compute; reflexivity).
  assert (fetch sample_stringify mocking_this "/mock/users" page_query
            (Some "get") None fresh_world = (Ok 0, mock_world)) as H
    by (vm_compute; reflexivity).
  split; [exact Hc|]. split; [exact H|].
  destruct (fetch_selects_instance sample_stringify _ _ _ _ _ _ _ _ _ _ _ Hc H)
    as (rq & Hrq & _ & Hmock & _).
  exists rq. split; [exact Hrq|].
  apply Hmock. vm_compute. reflexivity.
Defined.

Lemma canceled_request_is_silent_witness :
  consistent fresh_world ∧
  fetch sample_stringify plain_this "/users" page_query (Some "get") None
    fresh_world = (Ok 0, users_world) ∧
  (0 ∉ answered (run sample_stringify plain_this [ActCancel 0] users_world).2) ∧
  truthy (isCanceled (Cancel canceled_message)) = true ∧
  ∀ acts',
    promise_state
      (run sample_stringify plain_this acts'
         (deliver plain_this 0 (Failed (Cancel canceled_message))
            (run sample_stringify plain_this [ActCancel 0] users_world).2)).2
      0 = Pending.
Proof.
  assert (fetch sample_stringify plain_this "/users" page_query (Some "get")
            None fresh_world = (Ok 0, users_world)) as H
    by (vm_compute; reflexivity).
  assert (0 ∉ answered
                ((run sample_stringify plain_this [ActCancel 0] users_world).2))
    as Hans.
  { intros Hin. vm_compute in Hin. discriminate. }
  assert (truthy (isCanceled (Cancel canceled_message)) = true) as Hflag
    by (vm_compute; reflexivity).
  split; [exact fresh_world_consistent|]. split; [exact H|].
  split; [exact Hans|]. split; [exact Hflag|].
  destruct (canceled_request_is_silent sample_stringify _ _ _ _ _ _ _ _
              [ActCancel 0] _ fresh_world_consistent H Hans Hflag)
    as (_ & _ & _ & _ & Hever).
  exact Hever.
Defined.


Lemma deliver_notifies_and_settles_witness :
  fetch sample_stringify plain_this "/users" page_query (Some "get") None
    fresh_world = (Ok 0, users_world) ∧
  trace (deliver plain_this 0 (Fulfilled users_response) users_world)
  = trace users_world ++ [EvSuccessTip users_response (VBool false)] ∧
  promise_state (deliver plain_this 0 (Fulfilled users_response) users_world) 0
  = Resolved (VStr "alice,bob").
Proof.
  assert (fetch sample_stringify plain_this "/users" page_query (Some "get")
            None fresh_world = (Ok 0, users_world)) as H
    by (vm_compute; reflexivity).
  split; [exact H|].
  destruct (deliver_notifies_and_settles sample_stringify _ _ _ _ _ _ _ _ H)
    as (rq & Hrq & _ & Htip & _ & Hdeliver).
  assert (0 ∉ answered users_world) as Hans.
  { intros Hin. vm_compute in Hin. discriminate. }
  assert (promise_state users_world 0 = Pending) as Hp
    by (vm_compute; reflexivity).
  destruct (Hdeliver users_world Hrq Hans Hp) as [Hok _].
  destruct (Hok users_response) as (Htrace & _ & Hstate).
  rewrite (Htip eq_refl) in Htrace. split; [exact Htrace|].
  apply Hstate; [reflexivity|discriminate|discriminate].
Defined.

(** C7 as stated fails when the hook throws: the response arrives, the
    hook is called, and the promise is rejected with what the hook
    threw instead of being resolved with [response.data]. *)
Lemma success_hook_throw_rejects :
  constructor throwing_options (boot stock_defaults)
  = (Ok throwing_this, fresh_world) ∧
  fetch sample_stringify throwing_this "/users" page_query (Some "get") None
    fresh_world = (Ok 0, users_world) ∧
  trace (deliver throwing_this 0 (Fulfilled users_response) users_world)
  = [EvRequest 0; EvSuccessTip users_response (VBool false)] ∧
  promise_state (deliver throwing_this 0 (Fulfilled users_response) users_world) 0
  = Rejected boom ∧
  promise_state (deliver throwing_this 0 (Fulfilled users_response) users_world) 0
  ≠ Resolved (get_prop users_response "data").
Proof.
  assert (promise_state
            (deliver throwing_this 0 (Fulfilled users_response) users_world) 0
          = Rejected boom) as H by (vm_compute; reflexivity).
  split; [vm_compute; reflexivity|].
  split; [vm_compute; reflexivity|].
  split; [vm_compute; reflexivity|].
  split; [exact H|].
  rewrite H. discriminate.
Qed.

Lemma constructor_defaults_witness :
  is_Some (headers (axios_global (boot stock_defaults)) !! "post") ∧
  is_Some (headers (axios_global (boot stock_defaults)) !! "put") ∧
  ∃ this w' real,
    constructor no_options (boot stock_defaults) = (Ok this, w') ∧
    instance this ≠ mockInstance this ∧
    instances w' !! instance this = Some real ∧
    instances w' !! mockInstance this = Some real ∧
    timeout real = VNum 10000 ∧
    baseURL real = VStr "/" ∧
    withCredentials real = VBool true.
Proof.
  assert (is_Some (headers (axios_global (boot stock_defaults)) !! "post"))
    as Hpost by (eexists; reflexivity).
  assert (is_Some (headers (axios_global (boot stock_defaults)) !! "put"))
    as Hput by (eexists; reflexivity).
  split; [exact Hpost|]. split; [exact Hput|].
  destruct (constructor_defaults no_options (boot stock_defaults) Hpost Hput)
    as (this & w' & real & mock & Hc & Hne & Hreal & Hmock & Heq & Ht & _ & _
        & _ & _ & Hb & Hcred & _).
  exists this, w', real. rewrite <- Heq in Hmock.
  exact (conj Hc (conj Hne (conj Hreal (conj Hmock (conj Ht (conj Hb Hcred)))))).
Defined.

Lemma verbs_are_fetch_witness :
  del sample_stringify plain_this "/users/1" VUndef None fresh_world
  = (Ok 0, delete_world) ∧
  ∃ rq,
    requests delete_world !! 0 = Some rq ∧
    rq_config rq !! "method" = Some (Plain (VStr "delete")) ∧
    rq_config rq !! "url" = Some (Plain (VStr "/users/1")).
Proof.
  assert (del sample_stringify plain_this "/users/1" VUndef None fresh_world
          = (Ok 0, delete_world)) as H by (vm_compute; reflexivity).
  split; [exact H|].
  destruct (verbs_are_fetch sample_stringify plain_this "/users/1" VUndef None)
    as (_ & _ & _ & _ & _ & _ & _ & _ & _ & Hdel & _).
  destruct (Hdel _ _ _ _ _ _ H) as (rq & Hrq & Hmethod & Hurl).
  exists rq. split; [exact Hrq|]. split; [exact Hmethod|exact Hurl].
Defined.

(** C9 as stated fails on the number of request methods: [fetch] is a
    method of the class as well, not one of the six, and a call of it
    issues a request, here one of a method none of the six asks for. *)
Lemma fetch_is_a_request_method_too :
  class_member sample_stringify plain_this "fetch"
  = Some (OfRequest (fetch sample_stringify plain_this)) ∧
  ("fetch" ∉ ["get"; "post"; "put"; "patch"; "del"; "singleGet"]) ∧
  fetch sample_stringify plain_this "/users" page_query (Some "head") None
    fresh_world = (Ok 0, head_world) ∧
  (rq_config <$> requests head_world !! 0) ≫= (.!! "method")
  = Some (Plain (VStr "head")).
Proof.
  split; [reflexivity|]. split.
  { rewrite !not_elem_of_cons. repeat split; try discriminate.
    apply not_elem_of_nil. }
  split; vm_compute; reflexivity.
Qed.

Lemma options_override_witness :
  fetch sample_stringify plain_this "/users" page_query (Some "post")
    (Some own_token_options) fresh_world = (Ok 0, override_world) ∧
  own_token_options !! "cancelToken" = Some (VToken 7) ∧
  ∃ rq,
    requests override_world !! 0 = Some rq ∧
    rq_config rq !! "cancelToken" = Some (Plain (VToken 7)) ∧
    abort_error (cancel 0 override_world) (rq_config rq)
    = abort_error override_world (rq_config rq).
Proof.
  assert (fetch sample_stringify plain_this "/users" page_query (Some "post")
            (Some own_token_options) fresh_world = (Ok 0, override_world)) as H
    by (vm_compute; reflexivity).
  assert (own_token_options !! "cancelToken" = Some (VToken 7)) as Ho
    by (vm_compute; reflexivity).
  split; [exact H|]. split; [exact Ho|].
  destruct (options_override sample_stringify _ _ _ _ _ _ _ _ H)
    as (rq & Hrq & Hover & Hcancel & _).
  exists rq. split; [exact Hrq|]. split; [exact (Hover _ _ Ho)|].
  exact (proj2 (Hcancel _ Ho override_world)).
Defined.

(** * Further properties of the code *)

Section Further.

Variable stringify : value → string.

(** ** [setDefaultOption] and the constructor *)

(** What a successful [setDefaultOption] started from. *)
Lemma setDefaultOption_Ok_inv i w r w' :
  setDefaultOption i w = (Ok r, w') →
  ∃ d hpost hput,
    instances w !! i = Some d ∧
    headers d !! "post" = Some hpost ∧
    headers d !! "put" = Some hput ∧
    w' = write_defaults i (configured hpost hput d) w.
Proof.
  intros H.
  destruct (instances w !! i) as [d|] eqn:Hi.
  2: { by rewrite setDefaultOption_None in H. }
  destruct (headers d !! "post") as [hpost|] eqn:Hpost.
  2: { by rewrite (setDefaultOption_Throw_post i w d) in H. }
  destruct (headers d !! "put") as [hput|] eqn:Hput.
  2: { by rewrite (setDefaultOption_Throw_put i w d hpost) in H. }
  rewrite (setDefaultOption_Ok i w d hpost hput) in H by done.
  injection H as _ <-. by exists d, hpost, hput.
Qed.

(** X1: [setDefaultOption] is not atomic.  On defaults without headers
    for post it throws once the timeout is written; on defaults with
    headers for post but none for put it throws once the timeout and
    the Content-Type of post are written.  In both cases the base URL
    and the credentials flag are left as they were. *)
Theorem setDefaultOption_stops_half_way i w d :
  instances w !! i = Some d →
  (headers d !! "post" = None →
   ∃ e w' d',
     setDefaultOption i w = (Throw e, w') ∧
     instances w' !! i = Some d' ∧
     timeout d' = VNum 10000 ∧
     headers d' = headers d ∧
     baseURL d' = baseURL d ∧
     withCredentials d' = withCredentials d) ∧
  (∀ hpost,
     headers d !! "post" = Some hpost →
     headers d !! "put" = None →
     ∃ e w' d',
       setDefaultOption i w = (Throw e, w') ∧
       instances w' !! i = Some d' ∧
       timeout d' = VNum 10000 ∧
       headers d' !! "post"
       = Some (<["Content-Type" := VStr "application/json"]> hpost) ∧
       baseURL d' = baseURL d ∧
       withCredentials d' = withCredentials d).
Proof.
  intros Hi.
  assert (i < length (instances w)) as Hlt by by eapply lookup_lt_Some.
  split.
  - intros Hpost. eexists _, _, _.
    split; [by apply setDefaultOption_Throw_post|].
    split; [by apply write_defaults_read|]. done.
  - intros hpost Hpost Hput. eexists _, _, _.
    split; [by eapply setDefaultOption_Throw_put|].
    split; [by apply write_defaults_read|]. simpl.
    by rewrite lookup_insert_eq.
Qed.

(** X2: [setDefaultOption] overrides the Content-Type of post and of
    put and no other header: in the instance it configures, and in
    every other instance (which may have the same headers object), the
    headers of every other method (and the common ones) and every
    other header of post and put are kept; the timeout, the base URL
    and the credentials flag of every other instance are kept too. *)
Theorem setDefaultOption_keeps_other_headers i w r w' d :
  setDefaultOption i w = (Ok r, w') →
  instances w !! i = Some d →
  ∀ j dj, instances w !! j = Some dj →
    ∃ dj',
      instances w' !! j = Some dj' ∧
      (∀ m, m ≠ "post" → m ≠ "put" → headers dj' !! m = headers dj !! m) ∧
      (∀ m k, k ≠ "Content-Type" →
         (headers dj' !! m) ≫= (.!! k) = (headers dj !! m) ≫= (.!! k)) ∧
      (j ≠ i →
       timeout dj' = timeout dj ∧
       baseURL dj' = baseURL dj ∧
       withCredentials dj' = withCredentials dj).
Proof.
  intros H Hi j dj Hj.
  apply setDefaultOption_Ok_inv in H as (d0 & hpost & hput & Hi0 & Hpost & Hput & ->).
  assert (d0 = d) as -> by congruence.
  assert (i < length (instances w)) as Hlt by by eapply lookup_lt_Some.
  set (d' := configured hpost hput d).
  assert ((∀ m, m ≠ "post" → m ≠ "put" → headers d' !! m = headers d !! m) ∧
          (∀ m k, k ≠ "Content-Type" →
             (headers d' !! m) ≫= (.!! k) = (headers d !! m) ≫= (.!! k)))
    as [Hm Hk].
  { split.
    - intros m Hm1 Hm2. simpl. by rewrite !lookup_insert_ne.
    - intros m k Hk. simpl.
      destruct (decide (m = "put")) as [->|Hm2].
      { rewrite lookup_insert_eq, Hput. simpl. by rewrite lookup_insert_ne. }
      rewrite lookup_insert_ne by done.
      destruct (decide (m = "post")) as [->|Hm1].
      { rewrite lookup_insert_eq, Hpost. simpl. by rewrite lookup_insert_ne. }
      by rewrite lookup_insert_ne. }
  destruct (decide (j = i)) as [->|Hne].
  { assert (dj = d) as -> by congruence.
    exists d'. split; [by apply write_defaults_read|]. done. }
  destruct (write_defaults_other i d' w j d dj Hne Hi Hj)
    as (dj' & Hj' & Ht & Hb & Hc & Hh).
  exists dj'. split; [done|].
  destruct Hh as [->|[-> ->]]; done.
Qed.

(** X3: [setDefaultOption] is idempotent: applied again to the state it
    produced, it succeeds and changes nothing. *)
Theorem setDefaultOption_idempotent i w r w' :
  setDefaultOption i w = (Ok r, w') →
  setDefaultOption i w' = (Ok tt, w').
Proof.
  intros H.
  apply setDefaultOption_Ok_inv in H as (d & hpost & hput & Hi & Hpost & Hput & ->).
  assert (i < length (instances w)) as Hlt by by eapply lookup_lt_Some.
  destruct (configured_headers hpost hput d) as (Hpost' & Hput' & Hfix).
  erewrite setDefaultOption_Ok;
    [|by apply write_defaults_read|exact Hpost'|exact Hput'].
  by rewrite write_defaults_write, Hfix.
Qed.

(** X4: on a library whose defaults lack the headers of post (or of
    put) the constructor throws and returns no dispatcher, after it
    has created both instances. *)
Theorem constructor_throws_without_headers o w :
  headers (axios_global w) !! "post" = None ∨
  headers (axios_global w) !! "put" = None →
  ∃ e w',
    constructor o w = (Throw e, w') ∧
    length (instances w') = length (instances w) + 2.
Proof.
  intros Hmiss.
  set (w0 := set_singleGets (λ _, ∅) w).
  destruct (axios_create_twice w0) as (Hc1 & Hc2 & Hn & _ & _ & Hlen & _).
  set (n := length (instances w)).
  change (length (instances w0)) with n in Hc1, Hc2, Hn, Hlen.
  change (axios_global w0) with (axios_global w) in Hn.
  set (w2 := (axios_create (axios_create w0).2).2) in *.
  assert (axios_create w0 = (Ok n, (axios_create w0).2)) as H1
    by (rewrite <- Hc1; apply surjective_pairing).
  assert (axios_create (axios_create w0).2 = (Ok (S n), w2)) as H2
    by (rewrite <- Hc2; apply surjective_pairing).
  assert (∃ e w', setDefaultOption n w2 = (Throw e, w')) as (e & w' & Hs).
  { destruct (headers (axios_global w) !! "post") as [hpost|] eqn:Hpost.
    - destruct Hmiss as [?|Hput]; [done|].
      eexists _, _. by eapply setDefaultOption_Throw_put.
    - eexists _, _. by eapply setDefaultOption_Throw_post. }
  exists e, w'. split.
  - unfold constructor.
    rewrite (bind_Ok _ _ w tt w0) by reflexivity.
    erewrite bind_Ok by exact H1. erewrite bind_Ok by exact H2.
    by erewrite bind_Throw by exact Hs.
  - apply setDefaultOption_frame in Hs as (_ & _ & _ & _ & _ & _ & ->).
    rewrite Hlen. unfold n. lia.
Qed.

(** ** [fetch] *)

Lemma indexOf_found_or_Ok v :
  (∃ b, indexOf_found (js_or v (VStr "")) form_urlencoded = Ok b) ↔
  searchable v.
Proof.
  unfold js_or. destruct (truthy v) eqn:Ht.
  - destruct v; simpl in *; try discriminate; split; intros H;
      try (destruct H; discriminate); try congruence; try done; by eexists.
  - split; [intros _|by eexists]. destruct v; simpl in *; done.
Qed.

Lemma wants_form_Ok_iff x o :
  (∃ form,
     wants_form (js_or x (VStr ""))
       (js_or (js_and (get_prop (VObj o) "headers") (options_contentType o))
          (VStr "")) = Ok form) ↔
  searchable x ∧
  (contains x form_urlencoded ∨ searchable (options_contentType o)).
Proof.
  assert ((∃ b, indexOf_found
                  (js_or (js_and (get_prop (VObj o) "headers")
                            (options_contentType o)) (VStr ""))
                  form_urlencoded = Ok b)
          ↔ searchable (options_contentType o)) as Hsecond.
  { unfold js_and, options_contentType.
    destruct (truthy (get_prop (VObj o) "headers")) eqn:Hh.
    - apply indexOf_found_or_Ok.
    - unfold js_or. rewrite Hh. split; [intros _|by eexists].
      by destruct (get_prop (VObj o) "headers"). }
  unfold wants_form.
  destruct (truthy (js_or x (VStr ""))) eqn:Hx.
  - destruct (indexOf_found (js_or x (VStr "")) form_urlencoded)
      as [b|e] eqn:Hi.
    + assert (searchable x) as Hs by (apply indexOf_found_or_Ok; by eexists).
      apply indexOf_found_or in Hi. destruct b.
      * split; [|by eexists]. intros _. split; [done|]. left. by apply Hi.
      * rewrite Hsecond. split; [tauto|]. intros [_ [Hc|?]]; [|done].
        apply Hi in Hc. discriminate.
    + split; [by intros [? ?]|]. intros [Hs _].
      apply indexOf_found_or_Ok in Hs as [b Hb]. congruence.
  - assert (truthy x = false) as Hx'.
    { unfold js_or in Hx. destruct (truthy x) eqn:Hx'; [congruence|done]. }
    assert (searchable x) as Hs.
    { clear Hx. destruct x; simpl in *; try done; try congruence. }
    rewrite Hsecond. split; [tauto|]. intros [_ [Hc|?]]; [|done].
    by apply falsy_contains in Hx'.
Qed.

(** [fetch] computed, given what it reads. *)
Lemma fetch_compute this url data method options w dflts hs form :
  let m := default "get" method in
  let d := js_or data (VObj ∅) in
  let o := default ∅ options in
  let inst := if truthy (isMock this url d m o)
              then mockInstance this else instance this in
  instances w !! inst = Some dflts →
  method_headers (headers dflts) m = Ok hs →
  wants_form (js_or (default VUndef (hs !! "Content-Type")) (VStr ""))
    (js_or (js_and (get_prop (VObj o) "headers") (options_contentType o))
       (VStr "")) = Ok form →
  fetch stringify this url data method options w =
  (Ok (length (requests w)),
   emit (EvRequest (length (requests w)))
     (set_requests
        (λ l, l ++ [built_request this url d m o (encode stringify form d)
                      (length (requests w))]) w)).
Proof.
  intros m d o inst Hi Hh Hf.
  unfold fetch, bind, get_defaults, lift, issue.
  fold m d o. fold inst. rewrite Hi, Hh.
  fold (options_contentType o). by rewrite Hf.
Qed.

Lemma method_headers_is_Ok (table : gmap string obj) method :
  (∃ hs, method_headers table method = Ok hs) ↔
  is_Some (table !! method) ∨ method ∈ Object_prototype.
Proof.
  unfold method_headers. destruct (table !! method) as [hs|].
  - split; [by left|by eexists].
  - case_decide as Hin.
    + split; [by right|by eexists].
    + split; [by intros [? ?]|]. intros [Hs|?]; [|done].
      by apply is_Some_None in Hs.
Qed.

(** X5: [fetch], with an [isMock] that returns, issues a request
    exactly when the selected instance has default headers for the
    method or the method is a name every object inherits, the default
    Content-Type of the method is text (or falsy), and either that
    default already contains the form type or the Content-Type of the
    call is text (or falsy); in every other case it throws, and then
    it has changed nothing. *)
Theorem fetch_returns_exactly_when this url data method options w :
  let m := default "get" method in
  let d := js_or data (VObj ∅) in
  let o := default ∅ options in
  let inst := if truthy (isMock this url d m o)
              then mockInstance this else instance this in
  ((∃ h w', fetch stringify this url data method options w = (Ok h, w')) ↔
   ∃ dflts,
     instances w !! inst = Some dflts ∧
     (is_Some (headers dflts !! m) ∨ m ∈ Object_prototype) ∧
     searchable (defaults_contentType w inst m) ∧
     (contains (defaults_contentType w inst m) form_urlencoded ∨
      searchable (options_contentType o))) ∧
  (∀ e w', fetch stringify this url data method options w = (Throw e, w') →
           w' = w).
Proof.
  intros m d o inst. split; [|intros e w'; apply fetch_Throw]. split.
  - intros (h & w' & H).
    unfold fetch, bind, get_defaults, lift, issue in H.
    fold m d o in H. fold inst in H.
    destruct (instances w !! inst) as [dflts|] eqn:Hi; [|discriminate].
    destruct (method_headers (headers dflts) m) as [hs|] eqn:Hh;
      [|discriminate].
    fold (options_contentType o) in H.
    destruct (wants_form _ _) as [form|] eqn:Hf; [|discriminate].
    exists dflts. split; [done|].
    split; [apply method_headers_is_Ok; by eexists|].
    rewrite (defaults_contentType_eq _ _ _ _ _ Hi Hh).
    apply wants_form_Ok_iff. by exists form.
  - intros (dflts & Hi & Hm & Hs).
    apply method_headers_is_Ok in Hm as [hs Hh].
    rewrite (defaults_contentType_eq _ _ _ _ _ Hi Hh) in Hs.
    apply wants_form_Ok_iff in Hs as [form Hf].
    eexists _, _. by eapply fetch_compute.
Qed.

(** ** Cancelling and answering *)

(** X12: an error counts as a cancellation exactly when it is an object
    whose [message] is an object with a truthy [canceled]; an error with
    a text message, and [undefined], never do. *)
Theorem isCanceled_exactly err :
  truthy (isCanceled err) = true ↔
  ∃ (fields message : obj) flag,
    err = VObj fields ∧
    fields !! "message" = Some (VObj message) ∧
    message !! "canceled" = Some flag ∧
    truthy flag = true.
Proof.
  unfold isCanceled, js_and. split.
  - destruct err as [| | | | | |fields|]; simpl; try discriminate.
    + by destruct b.
    + destruct (negb (n =? 0)%Z) eqn:E; simpl; rewrite ?E; simpl;
        rewrite ?E; done.
    + destruct (negb (String.eqb s "")) eqn:E; simpl; rewrite ?E; simpl;
        rewrite ?E; done.
    + destruct (fields !! "message") as [msg|] eqn:Hm; simpl; [|discriminate].
      destruct (truthy msg) eqn:Ht; [|congruence].
      destruct msg as [| | | | | |message|]; simpl; try discriminate.
      destruct (message !! "canceled") as [flag|] eqn:Hc; simpl;
        [|discriminate].
      intros Hf. by exists fields, message, flag.
  - intros (fields & message & flag & -> & Hm & Hc & Hf). simpl.
    rewrite Hm. simpl. by rewrite Hc.
Qed.

Lemma fetch_pending this url data method options w h w1 :
  consistent w →
  fetch stringify this url data method options w = (Ok h, w1) →
  (h ∉ answered w1) ∧ promise_state w1 h = Pending.
Proof.
  intros (Ha & Hp & _) Hf.
  apply fetch_issues in Hf
    as (payload & _ & -> & _ & _ & _ & _ & _ & Hps & Han & _).
  assert (length (requests w) ∉ answered w) as Hn.
  { intros Hin. apply Ha in Hin. lia. }
  split; [by rewrite Han|].
  unfold promise_state. rewrite Hps.
  destruct (promises w !! length (requests w)) eqn:Hl; [|done].
  destruct Hn. apply Hp. by rewrite Hl.
Qed.

(** X13: when the caller's own token replaces the one [fetch] makes
    and the caller cancels it with a message that has no truthy
    [canceled], the request is aborted with that message and the
    cancellation is handled as an ordinary failure: [onShowErrorTip]
    is called with it and the promise is rejected. *)
Theorem caller_cancel_without_flag_is_reported this url data method options
    w h w1 n message :
  consistent w →
  fetch stringify this url data method options w = (Ok h, w1) →
  default ∅ options !! "cancelToken" = Some (VToken n) →
  caller_tokens w1 !! n = None →
  truthy (get_prop message "canceled") = false →
  let w2 := caller_cancel n message w1 in
  let w3 := deliver this h (Failed (Cancel message)) w2 in
  ∃ rq,
    requests w2 !! h = Some rq ∧
    abort_error w2 (rq_config rq) = Some (Cancel message) ∧
    trace w3 = trace w2 ++ [EvErrorTip (Cancel message) (rq_errorTip rq)] ∧
    promise_state w3 h =
      match onShowErrorTip this (Cancel message) (rq_errorTip rq) with
      | Throws error => Rejected error
      | Returns => Rejected (Cancel message)
      end.
Proof.
  intros Hw Hf Ho Hn Hflag w2 w3.
  destruct (fetch_pending _ _ _ _ _ _ _ _ Hw Hf) as [Hans Hpend].
  apply fetch_issues in Hf as (payload & _ & _ & _ & Hrq & _).
  assert (w2 = set_caller_tokens (insert n (Cancel message)) w1) as Hw2.
  { unfold w2, caller_cancel. by rewrite Hn. }
  assert (truthy (isCanceled (Cancel message)) = false) as Hc.
  { unfold isCanceled, Cancel, js_and. simpl.
    rewrite lookup_singleton_eq. simpl.
    destruct (truthy message) eqn:Hm; [done|]. by rewrite Hm. }
  eexists. split; [by rewrite Hw2|]. split.
  { unfold abort_error. cbn [rq_config built_request].
    rewrite spread_config_lookup, Ho, Hw2. simpl. by rewrite lookup_insert_eq. }
  apply deliver_Failed; rewrite ?Hw2; done.
Qed.

(** X14: a dispatcher built without hook options has hooks that never
    throw, so that every response with properties resolves the promise
    with its [data], and every failure that is not a cancellation
    rejects it with the error itself. *)
Theorem default_hooks_settle_plainly o w0 this w1 w h rq :
  constructor o w0 = (Ok this, w1) →
  requests w !! h = Some rq →
  h ∉ answered w →
  promise_state w h = Pending →
  (opt_onShowSuccessTip o = None →
   ∀ response, response ≠ VUndef → response ≠ VNull →
     promise_state (deliver this h (Fulfilled response) w) h
     = Resolved (get_prop response "data")) ∧
  (opt_onShowErrorTip o = None →
   ∀ err, truthy (isCanceled err) = false →
     promise_state (deliver this h (Failed err) w) h = Rejected err).
Proof.
  intros Hc Hrq Hans Hp.
  apply constructor_fields in Hc as (_ & _ & _ & _ & Hs & He & _).
  split.
  - intros Ho response Hu Hn.
    destruct (deliver_Fulfilled this h response w rq Hrq Hans Hp) as [_ ->].
    rewrite Hs, Ho. simpl. by destruct response.
  - intros Ho err Hcan.
    destruct (deliver_Failed this h err w rq Hrq Hans Hp Hcan) as [_ ->].
    by rewrite He, Ho.
Qed.

Lemma tips_snoc tr e :
  tips (tr ++ [e]) = tips tr + (if is_tip e then 1 else 0).
Proof.
  unfold tips. rewrite List.filter_app, length_app. simpl.
  by destruct (is_tip e).
Qed.

Lemma deliver_tips this h o w :
  (tips (trace (deliver this h o w)) + size (answered w)
   ≤ tips (trace w) + size (answered (deliver this h o w)))%nat.
Proof.
  unfold deliver, resolve, reject.
  destruct (requests w !! h) as [rq|]; [|done].
  case_bool_decide as Hans; [done|].
  assert (size ({[h]} ∪ answered w : gset nat) = S (size (answered w))) as Hsize.
  { rewrite size_union by set_solver. by rewrite size_singleton. }
  destruct o as [response|err].
  - destruct (onShowSuccessTip this response _);
      [destruct (read_prop response "data")|];
      match goal with
      | |- context [settle h ?s ?w0] =>
          destruct (settle_frame h s w0) as (_ & -> & _ & _ & _ & -> & _)
      end; simpl; rewrite tips_snoc, Hsize; simpl; lia.
  - destruct (truthy (isCanceled err)).
    + simpl. rewrite Hsize. lia.
    + destruct (onShowErrorTip this err _);
        match goal with
        | |- context [settle h ?s ?w0] =>
            destruct (settle_frame h s w0) as (_ & -> & _ & _ & _ & -> & _)
        end; simpl; rewrite tips_snoc, Hsize; simpl; lia.
Qed.

Lemma perform_tips this a w r w' :
  perform stringify this a w = (r, w') →
  (tips (trace w') + size (answered w)
   ≤ tips (trace w) + size (answered w'))%nat.
Proof.
  assert (∀ old w0, tips (trace (cancel old w0)) = tips (trace w0) ∧
                    answered (cancel old w0) = answered w0) as Hcancel.
  { intros old w0. destruct (cancel_own_tokens old w0) as (_ & _ & _ & ->).
    destruct (cancel_frame old w0) as (_ & _ & -> & _).
    rewrite tips_snoc. simpl. split; [lia|done]. }
  destruct a as [url data method options|url params options|h0|h0 o|i f|n msg];
    unfold perform, bind, modify, ret.
  - destruct (fetch _ _ _ _ _ _ _) as [[] ?] eqn:Hf; intros [= <- <-].
    + apply fetch_issues in Hf
        as (payload & _ & _ & _ & _ & -> & _ & _ & _ & -> & _).
      rewrite tips_snoc. simpl. lia.
    + by apply fetch_Throw in Hf as ->.
  - rewrite singleGet_unfold.
    case_bool_decide as Hinh; [by intros [= <- <-]|].
    set (w0 := match singleGets w !! url with
               | Some old => cancel old w
               | None => w
               end).
    assert (tips (trace w0) = tips (trace w) ∧ answered w0 = answered w)
      as [Ht Ha].
    { unfold w0. destruct (singleGets w !! url); [apply Hcancel|done]. }
    destruct (fetch _ _ _ _ _ _ _) as [[] ?] eqn:Hf; intros [= <- <-].
    + apply fetch_issues in Hf
        as (payload & _ & _ & _ & _ & Htr & _ & _ & _ & Han & _).
      simpl. rewrite Htr, Han, tips_snoc, Ht, Ha. simpl. lia.
    + apply fetch_Throw in Hf as ->. rewrite Ht, Ha. lia.
  - destruct (requests w !! h0); intros [= <- <-]; [|done].
    destruct (Hcancel h0 w) as [-> ->]. lia.
  - intros [= <- <-]. apply deliver_tips.
  - destruct (update_defaults i f w) as [[] w1] eqn:Hu; intros [= <- <-];
      by apply update_defaults_frame in Hu as (_ & _ & -> & _ & _ & ->).
  - intros [= <- <-].
    by destruct (caller_cancel_frame n msg w) as (_ & _ & -> & _ & _ & ->).
Qed.

(** X15: each request notifies at most once: over any run, the number
    of calls of the two hooks grows by no more than the number of
    requests that were answered. *)
Theorem one_notification_per_answer this acts w :
  let w' := (run stringify this acts w).2 in
  (tips (trace w') + size (answered w)
   ≤ tips (trace w) + size (answered w'))%nat.
Proof.
  cbv zeta. revert w. induction acts as [|a acts IH]; intros w; [done|].
  simpl. destruct (perform stringify this a w) as [r w1] eqn:Hp.
  specialize (IH w1). destruct (run stringify this acts w1) as [log w2].
  simpl in *. apply perform_tips in Hp. lia.
Qed.

(** ** [singleGet] *)

(** X16: when [fetch] throws inside [singleGet], the handle stored
    under the url has already been cancelled and stays in the map: the
    earlier request is given up although no new one replaced it. *)
Theorem singleGet_failure_keeps_cancelled_handle this url params options
    w old e w' :
  singleGets w !! url = Some old →
  singleGet stringify this url params options w = (Throw e, w') →
  w' = cancel old w ∧
  singleGets w' !! url = Some old ∧
  is_Some (own_tokens w' !! old) ∧
  requests w' = requests w ∧
  trace w' = trace w ++ [EvCancel old].
Proof.
  intros Hold. rewrite singleGet_unfold, Hold.
  rewrite bool_decide_eq_false_2 by (by intros [? _]).
  destruct (fetch _ _ _ _ _ _ _) as [[h|e'] w1] eqn:Hf; intros [= <- <-].
  apply fetch_Throw in Hf as ->.
  destruct (cancel_frame old w) as (Hr & _ & _ & Hs & _).
  destruct (cancel_own_tokens old w) as (Ht & _ & _ & Htr).
  by rewrite Hs, Hr.
Qed.

(** X17: [singleGet] cancels nothing but the handle stored under its
    own url: the token of every other handle is as it was, so the
    requests of other urls go on. *)
Theorem singleGet_cancels_own_url_only this url params options w r w' h :
  singleGet stringify this url params options w = (r, w') →
  singleGets w !! url ≠ Some h →
  own_tokens w' !! h = own_tokens w !! h.
Proof.
  rewrite singleGet_unfold.
  case_bool_decide as Hinh; [by intros [= <- <-]|].
  intros H Hne.
  set (w0 := match singleGets w !! url with
             | Some old => cancel old w
             | None => w
             end) in *.
  assert (own_tokens w0 !! h = own_tokens w !! h) as H0.
  { unfold w0. destruct (singleGets w !! url) as [old|]; [|done].
    destruct (cancel_own_tokens old w) as (_ & Hother & _).
    apply Hother. congruence. }
  destruct (fetch _ _ _ _ _ _ _) as [[h'|e] w1] eqn:Hf; injection H as <- <-.
  - apply fetch_issues in Hf
      as (payload & _ & _ & _ & _ & _ & _ & _ & _ & _ & Ht & _).
    simpl. by rewrite Ht.
  - by apply fetch_Throw in Hf as ->.
Qed.

(** ** The higher-order component *)

(** X18: the injected object has the six methods and no other property
    of its own: a call of any other name that is not inherited from
    [Object.prototype] (of [fetch], say) throws, records no token and
    reaches no dispatcher method. *)
Theorem injected_object_has_no_other_method dcFetch (p : gmap string prop) c
    name url data options w :
  _dcFetch c = _dcFetch (WithSubscription_constructor p) →
  name ∉ methods →
  name ∉ Object_prototype →
  ∃ e,
    call_injected stringify dcFetch c name url data options w = (Throw e, c, w).
Proof.
  intros Hc Hname _. unfold call_injected.
  rewrite Hc, injected_table. rewrite decide_False by done. by eexists.
Qed.

(** X19: the props of the parent win over the injected one: the props
    object [render] builds holds every own prop unchanged, so that a
    parent prop named like the injected prop hides the injected methods;
    apart from the own props only the injected name is added. *)
Theorem render_own_props_win propName c :
  let name := default "dcFetch" propName in
  (∀ k v, props c !! k = Some v → render propName c !! k = Some v) ∧
  (∀ k, k ≠ name → render propName c !! k = props c !! k) ∧
  (props c !! name = None →
   render propName c !! name = Some (PMethods (_dcFetch c))).
Proof.
  cbv zeta. unfold render, injectProps. split; [|split].
  - intros k v Hk. by apply lookup_union_Some_l.
  - intros k Hk. rewrite lookup_union_l; [done|].
    apply lookup_singleton_ne. congruence.
  - intros Hk. rewrite lookup_union_r by done. by apply lookup_singleton_eq.
Qed.

Lemma unmount_frame l w :
  let w' := foldl (λ w item, cancel item w) w l in
  promises w' = promises w ∧
  answered w' = answered w ∧
  requests w' = requests w ∧
  singleGets w' = singleGets w ∧
  instances w' = instances w ∧
  (∀ h, h ∉ l → own_tokens w' !! h = own_tokens w !! h) ∧
  (∀ h, is_Some (own_tokens w !! h) → own_tokens w' !! h = own_tokens w !! h).
Proof.
  cbv zeta. revert w. induction l as [|x l IH]; intros w; [done|].
  simpl. destruct (IH (cancel x w)) as (-> & -> & -> & -> & -> & Hnot & Hkeep).
  destruct (cancel_frame x w) as (-> & -> & -> & -> & ->).
  destruct (cancel_own_tokens x w) as (Hx & Hother & _).
  repeat split; try done.
  - intros h Hh. rewrite not_elem_of_cons in Hh. destruct Hh as [Hne Hh].
    rewrite Hnot by done. by apply Hother.
  - intros h Hs.
    assert (own_tokens (cancel x w) !! h = own_tokens w !! h) as Hsame.
    { destruct (decide (h = x)) as [->|Hne]; [|by apply Hother].
      destruct Hs as [e He]. unfold cancel. simpl. by rewrite He. }
    rewrite Hkeep; [done|]. by rewrite Hsame.
Qed.

(** X20: unmounting settles nothing and cancels the handles of this
    component only: promises, requests and the dispatcher's
    [singleGets] map are as they were (the map still holds handles that
    are now cancelled), and the token of a handle the component did not
    record is untouched. *)
Theorem unmount_cancels_own_handles_only c w :
  let w' := componentWillUnmount c w in
  (∀ h, promise_state w' h = promise_state w h) ∧
  requests w' = requests w ∧
  singleGets w' = singleGets w ∧
  ∀ h, h ∉ _dcFetchTokens c → own_tokens w' !! h = own_tokens w !! h.
Proof.
  cbv zeta. unfold componentWillUnmount.
  destruct (unmount_frame (_dcFetchTokens c) w)
    as (Hp & _ & Hr & Hs & _ & Hnot & _).
  repeat split; try done. intros h. unfold promise_state. by rewrite Hp.
Qed.

(** X21: unmounting twice is harmless: the second pass finds every
    token cancelled and leaves all tokens as the first pass did. *)
Theorem unmount_twice c w :
  own_tokens (componentWillUnmount c (componentWillUnmount c w))
  = own_tokens (componentWillUnmount c w).
Proof.
  apply map_eq. intros h.
  destruct (unmount_frame (_dcFetchTokens c) (componentWillUnmount c w))
    as (_ & _ & _ & _ & _ & Hnot & Hkeep).
  destruct (decide (h ∈ _dcFetchTokens c)) as [Hin|Hout].
  - apply Hkeep. by apply componentWillUnmount_cancels.
  - by apply Hnot.
Qed.

End Further.

(** * The further properties on sample calls *)

Lemma setDefaultOption_stops_half_way_witness :
  instances bare_world !! 0 = Some bare_defaults ∧
  headers bare_defaults !! "post" = None ∧
  ∃ e w' d',
    setDefaultOption 0 bare_world = (Throw e, w') ∧
    instances w' !! 0 = Some d' ∧
    timeout d' = VNum 10000 ∧
    baseURL d' = VUndef.
Proof.
  assert (instances bare_world !! 0 = Some bare_defaults) as Hi
    by reflexivity.
  assert (headers bare_defaults !! "post" = None) as Hpost by reflexivity.
  split; [exact Hi|]. split; [exact Hpost|].
  destruct (setDefaultOption_stops_half_way 0 bare_world bare_defaults Hi)
    as [Hmiss _].
  destruct (Hmiss Hpost) as (e & w' & d' & Hs & Hd & Ht & _ & Hb & _).
  exists e, w', d'.
  exact (conj Hs (conj Hd (conj Ht Hb))).
Defined.

Lemma setDefaultOption_keeps_other_headers_witness :
  setDefaultOption 0 two_instance_world = (Ok tt, half_configured_world) ∧
  instances two_instance_world !! 0 = Some stock_defaults ∧
  instances two_instance_world !! 1 = Some stock_defaults ∧
  ∃ d',
    instances half_configured_world !! 1 = Some d' ∧
    headers d' !! "patch" = headers stock_defaults !! "patch" ∧
    headers d' !! "common" = headers stock_defaults !! "common" ∧
    timeout d' = VNum 0.
Proof.
  assert (setDefaultOption 0 two_instance_world
          = (Ok tt, half_configured_world))
    as H by (vm_compute; reflexivity).
  assert (instances two_instance_world !! 0 = Some stock_defaults) as H0
    by (vm_compute; reflexivity).
  assert (instances two_instance_world !! 1 = Some stock_defaults) as H1
    by (vm_compute; reflexivity).
  split; [exact H|]. split; [exact H0|]. split; [exact H1|].
  destruct (setDefaultOption_keeps_other_headers _ _ _ _ _ H H0 1 _ H1)
    as (d' & Hd & Hother & _ & Hown).
  exists d'. split; [exact Hd|].
  split; [apply Hother; discriminate|].
  split; [apply Hother; discriminate|].
  destruct Hown as (Ht & _); [discriminate|exact Ht].
Defined.

Lemma setDefaultOption_idempotent_witness :
  setDefaultOption 0 one_instance_world = (Ok tt, configured_world) ∧
  setDefaultOption 0 configured_world = (Ok tt, configured_world).
Proof.
  assert (setDefaultOption 0 one_instance_world = (Ok tt, configured_world))
    as H by (vm_compute; reflexivity).
  split; [exact H|].
  exact (setDefaultOption_idempotent _ _ _ _ H).
Defined.

Lemma constructor_throws_without_headers_witness :
  (headers (axios_global (boot bare_defaults)) !! "post" = None ∨
   headers (axios_global (boot bare_defaults)) !! "put" = None) ∧
  ∃ e w',
    constructor no_options (boot bare_defaults) = (Throw e, w') ∧
    length (instances w') = 2.
Proof.
  assert (headers (axios_global (boot bare_defaults)) !! "post" = None ∨
          headers (axios_global (boot bare_defaults)) !! "put" = None) as H
    by (left; reflexivity).
  split; [exact H|].
  exact (constructor_throws_without_headers no_options (boot bare_defaults) H).
Defined.

Lemma caller_cancel_without_flag_is_reported_witness :
  consistent fresh_world ∧
  fetch sample_stringify plain_this "/users" page_query (Some "post")
    (Some own_token_options) fresh_world = (Ok 0, override_world) ∧
  default ∅ (Some own_token_options) !! "cancelToken" = Some (VToken 7) ∧
  caller_tokens override_world !! 7 = None ∧
  truthy (get_prop (VStr "abort") "canceled") = false ∧
  ∃ rq,
    requests (caller_cancel 7 (VStr "abort") override_world) !! 0 = Some rq ∧
    abort_error (caller_cancel 7 (VStr "abort") override_world) (rq_config rq)
    = Some (Cancel (VStr "abort")) ∧
    promise_state
      (deliver plain_this 0 (Failed (Cancel (VStr "abort")))
         (caller_cancel 7 (VStr "abort") override_world)) 0
    = Rejected (Cancel (VStr "abort")).
Proof.
  assert (fetch sample_stringify plain_this "/users" page_query (Some "post")
            (Some own_token_options) fresh_world = (Ok 0, override_world)) as H
    by (vm_compute; reflexivity).
  assert (default ∅ (Some own_token_options) !! "cancelToken"
          = Some (VToken 7)) as Ho by (vm_compute; reflexivity).
  assert (caller_tokens override_world !! 7 = None) as Hn
    by (vm_compute; reflexivity).
  assert (truthy (get_prop (VStr "abort") "canceled") = false) as Hflag
    by reflexivity.
  split; [exact fresh_world_consistent|]. split; [exact H|].
  split; [exact Ho|]. split; [exact Hn|]. split; [exact Hflag|].
  destruct (caller_cancel_without_flag_is_reported sample_stringify _ _ _ _ _
              _ _ _ _ _ fresh_world_consistent H Ho Hn Hflag)
    as (rq & Hrq & Habort & _ & Hstate).
  exists rq. split; [exact Hrq|]. split; [exact Habort|]. exact Hstate.
Defined.

Lemma default_hooks_settle_plainly_witness :
  constructor no_options (boot stock_defaults) = (Ok plain_this, fresh_world) ∧
  (0 ∉ answered users_world) ∧
  promise_state users_world 0 = Pending ∧
  promise_state (deliver plain_this 0 (Fulfilled users_response) users_world) 0
  = Resolved (get_prop users_response "data") ∧
  promise_state (deliver plain_this 0 (Failed (VStr "timeout")) users_world) 0
  = Rejected (VStr "timeout").
Proof.
  assert (constructor no_options (boot stock_defaults)
          = (Ok plain_this, fresh_world)) as Hc by (vm_compute; reflexivity).
  assert (∃ rq, requests users_world !! 0 = Some rq) as [rq Hrq]
    by (vm_compute; eexists; reflexivity).
  assert (0 ∉ answered users_world) as Hans.
  { intros Hin. vm_compute in Hin. discriminate. }
  assert (promise_state users_world 0 = Pending) as Hp
    by (vm_compute; reflexivity).
  split; [exact Hc|]. split; [exact Hans|]. split; [exact Hp|].
  destruct (default_hooks_settle_plainly _ _ _ _ _ _ _ Hc Hrq Hans Hp)
    as [Hok Hfail].
  split.
  - apply Hok; [reflexivity|discriminate|discriminate].
  - apply Hfail; reflexivity.
Defined.

Lemma singleGet_failure_keeps_cancelled_handle_witness :
  singleGets headless_world !! "/suggest" = Some 0 ∧
  singleGet sample_stringify plain_this "/suggest" page_query None
    headless_world
  = (Throw (TypeError "Cannot read property Content-Type"),
     headless_again_world) ∧
  singleGets headless_again_world !! "/suggest" = Some 0 ∧
  is_Some (own_tokens headless_again_world !! 0) ∧
  requests headless_again_world = requests headless_world.
Proof.
  assert (singleGets headless_world !! "/suggest" = Some 0) as Hold
    by (vm_compute; reflexivity).
  assert (singleGet sample_stringify plain_this "/suggest" page_query None
            headless_world
          = (Throw (TypeError "Cannot read property Content-Type"),
             headless_again_world)) as H by (vm_compute; reflexivity).
  split; [exact Hold|]. split; [exact H|].
  destruct (singleGet_failure_keeps_cancelled_handle sample_stringify _ _ _ _
              _ _ _ _ Hold H) as (_ & Hmap & Htoken & Hreq & _).
  exact (conj Hmap (conj Htoken Hreq)).
Defined.

Lemma singleGet_cancels_own_url_only_witness :
  singleGet sample_stringify plain_this "/other" page_query None suggest_world
  = (Ok 1, other_url_world) ∧
  singleGets suggest_world !! "/other" ≠ Some 0 ∧
  own_tokens other_url_world !! 0 = own_tokens suggest_world !! 0.
Proof.
  assert (singleGet sample_stringify plain_this "/other" page_query None
            suggest_world = (Ok 1, other_url_world)) as H
    by (vm_compute; reflexivity).
  assert (singleGets suggest_world !! "/other" ≠ Some 0) as Hne.
  { assert (singleGets suggest_world !! "/other" = None) as ->
      by (vm_compute; reflexivity).
    discriminate. }
  split; [exact H|]. split; [exact Hne|].
  exact (singleGet_cancels_own_url_only sample_stringify _ _ _ _ _ _ _ _ H Hne).
Defined.

Lemma injected_object_has_no_other_method_witness :
  ("fetch" ∉ methods) ∧
  ("fetch" ∉ Object_prototype) ∧
  ∃ e,
    call_injected sample_stringify plain_this (WithSubscription_constructor ∅)
      "fetch" "/users" page_query None fresh_world
    = (Throw e, WithSubscription_constructor ∅, fresh_world).
Proof.
  assert ("fetch" ∉ methods) as H.
  { unfold methods. rewrite !not_elem_of_cons. repeat split; try discriminate.
    apply not_elem_of_nil. }
  assert ("fetch" ∉ Object_prototype) as Hp.
  { unfold Object_prototype. rewrite !not_elem_of_cons.
    repeat split; try discriminate. apply not_elem_of_nil. }
  split; [exact H|]. split; [exact Hp|].
  exact (injected_object_has_no_other_method sample_stringify plain_this ∅
           (WithSubscription_constructor ∅) "fetch" "/users" page_query None
           fresh_world eq_refl H Hp).
Defined.
